(** * Actor-critic rollout bookkeeping and GAE of [rltorch.agents.core.ACAgent]

    A shallow embedding of [ACAgent.predict], [observe], [record],
    [set_new_obs], [get_newest_state] and [aggregate_experiences].

    Numbers are exact rationals [Q] (the torch/numpy floats without
    rounding).  A per-worker tensor row (one entry per worker) is a function
    [nat -> Q] read at the worker index; per-worker Python lists and numpy
    arrays handed to [record] are Coq lists.  The agent's mutable fields are a
    record threaded through a state monad with Python exceptions: an
    exception keeps the mutations done before it, as in Python. *)

From Stdlib Require Import QArith Qpower ZArith List Lia Bool Arith.
Import ListNotations.

Open Scope Q_scope.

(** ** Tensors and events *)

(** A 1-D tensor over workers, read at the worker index. *)
Definition arr := nat -> Q.

Definition azero : arr := fun _ => 0.

(** [np.sum] of a Python list of rewards. *)
Fixpoint qsum (l : list Q) : Q :=
  match l with
  | [] => 0
  | x :: l' => x + qsum l'
  end.

(** What the tensorboard writer is asked to log by [record]:
    [add_scalar('data/episode_reward_sum_{i}', ep_sum_reward, step)] and
    the two [add_histogram] calls, each keyed by worker [i] and the
    episode index [step]. *)
Inductive Event (Act : Type) :=
| EvRewardSum (i : nat) (total : Q) (step : nat)
| EvActionHist (i : nat) (actions : list Act) (step : nat)
| EvRewardDist (i : nat) (rewards : list Q) (step : nat).
Arguments EvRewardSum {Act}.
Arguments EvActionHist {Act}.
Arguments EvRewardDist {Act}.

(** Python exceptions that the modelled code can raise. *)
Inductive Exc :=
| AttributeError   (** attribute of [None], or [self.new_obs] unset *)
| IndexError       (** list / tensor index out of range *)
| RuntimeError     (** [torch.stack] of an empty list; store not full *)
| SinkError.       (** the telemetry writer raised *)

(** ** The Experience Store *)

(** Modelled from the spec: [ACMemory] (module [rltorch.memories], not part
    of the sources).  Spec section 6: [append(observations, actions,
    rewards, terminals, training_flag)], [store_value_log_prob(value,
    log_prob, entropy)], [get_recent_state(observations)], [sample()] giving
    the full-horizon transition batch, and [reset()] emptying the store.
    Each field is the time-ordered sequence of one kind of entry. *)
Record Memory (Obs Act : Type) := mkMemory {
  mem_obs : list (list Obs);
  mem_action : list (list Act);
  mem_reward : list (list Q);
  mem_terminal : list (list bool);
  mem_value : list (nat -> list Q);
  mem_log_prob : list arr;
  mem_entropy : list arr
}.
Arguments mkMemory {Obs Act}.
Arguments mem_obs {Obs Act}.
Arguments mem_action {Obs Act}.
Arguments mem_reward {Obs Act}.
Arguments mem_terminal {Obs Act}.
Arguments mem_value {Obs Act}.
Arguments mem_log_prob {Obs Act}.
Arguments mem_entropy {Obs Act}.

(** Modelled from the spec: [ACMemory.reset()] leaves the store empty. *)
Definition empty_memory {Obs Act : Type} : Memory Obs Act :=
  mkMemory [] [] [] [] [] [] [].

(** Modelled from the spec: [ACMemory.append] appends one transition. *)
Definition mem_append {Obs Act : Type} (m : Memory Obs Act) (obs : list Obs)
    (action : list Act) (reward : list Q) (terminal : list bool)
    (training : bool) : Memory Obs Act :=
  mkMemory (mem_obs m ++ [obs]) (mem_action m ++ [action])
    (mem_reward m ++ [reward]) (mem_terminal m ++ [terminal])
    (mem_value m) (mem_log_prob m) (mem_entropy m).

(** Modelled from the spec: [ACMemory.store_value_log_prob] caches the
    statistics of the step the next [append] fills. *)
Definition mem_store_value_log_prob {Obs Act : Type} (m : Memory Obs Act)
    (value : nat -> list Q) (log_prob entropy : arr) : Memory Obs Act :=
  mkMemory (mem_obs m) (mem_action m) (mem_reward m) (mem_terminal m)
    (mem_value m ++ [value]) (mem_log_prob m ++ [log_prob])
    (mem_entropy m ++ [entropy]).

(** ** Collaborators and configuration *)

(** The constructor arguments of [ACAgent] and its external collaborators:
    the feature processor ([None] allowed), the store's windowed state, the
    policy/value network, the action distribution, and whether the
    telemetry sink accepts a write (when it does not, it raises). *)
Record Env := {
  Obs : Type;
  Act : Type;
  State : Type;
  Dist : Type;
  processor : option (Obs -> Obs);
  get_recent_state : Memory Obs Act -> list Obs -> State;
  ac_model : State -> Dist * (nat -> list Q);
  dist_sample : Dist -> list Act;
  dist_log_prob : Dist -> list Act -> arr;
  dist_entropy : Dist -> arr;
  sink_accepts : Event Act -> bool;
  smooth_length : nat;
  num_frames_per_proc : nat;
  discount : Q;
  gae_lambda : Q
}.

(** ** Agent state *)

(** The mutable attributes of an [ACAgent]; the [defaultdict]s keyed by
    worker id are total functions (the default for an untouched key). *)
Record Agent (Obs Act : Type) := mkAgent {
  memory : Memory Obs Act;
  new_obs : option (list Obs);
  episode_steps : nat -> nat;
  reward_record : nat -> list Q;
  ep_rewards : nat -> list Q;
  ep_actions : nat -> list Act;
  record_step : nat;
  writer_log : list (Event Act)
}.
Arguments mkAgent {Obs Act}.
Arguments memory {Obs Act}.
Arguments new_obs {Obs Act}.
Arguments episode_steps {Obs Act}.
Arguments reward_record {Obs Act}.
Arguments ep_rewards {Obs Act}.
Arguments ep_actions {Obs Act}.
Arguments record_step {Obs Act}.
Arguments writer_log {Obs Act}.

(** The attributes as [__init__] leaves them: [defaultdict(lambda: 0)],
    [defaultdict(partial(deque, maxlen=smooth_length))],
    [defaultdict(list)], [record_step = 0], no [new_obs] yet. *)
Definition init_agent {Obs Act : Type} : Agent Obs Act :=
  mkAgent empty_memory None (fun _ => 0%nat) (fun _ => []) (fun _ => [])
    (fun _ => []) 0%nat [].

(** [d[i] = v] on a [defaultdict]. *)
Definition upd {A : Type} (f : nat -> A) (i : nat) (v : A) : nat -> A :=
  fun j => if Nat.eqb j i then v else f j.

Section Setters.
Context {Obs Act : Type}.
Implicit Type s : Agent Obs Act.

Definition set_memory (m : Memory Obs Act) s : Agent Obs Act :=
  mkAgent m (new_obs s) (episode_steps s) (reward_record s) (ep_rewards s)
    (ep_actions s) (record_step s) (writer_log s).
Definition set_new_obs_field (o : option (list Obs)) s : Agent Obs Act :=
  mkAgent (memory s) o (episode_steps s) (reward_record s) (ep_rewards s)
    (ep_actions s) (record_step s) (writer_log s).
Definition set_episode_steps (f : nat -> nat) s : Agent Obs Act :=
  mkAgent (memory s) (new_obs s) f (reward_record s) (ep_rewards s)
    (ep_actions s) (record_step s) (writer_log s).
Definition set_reward_record (f : nat -> list Q) s : Agent Obs Act :=
  mkAgent (memory s) (new_obs s) (episode_steps s) f (ep_rewards s)
    (ep_actions s) (record_step s) (writer_log s).
Definition set_ep_rewards (f : nat -> list Q) s : Agent Obs Act :=
  mkAgent (memory s) (new_obs s) (episode_steps s) (reward_record s) f
    (ep_actions s) (record_step s) (writer_log s).
Definition set_ep_actions (f : nat -> list Act) s : Agent Obs Act :=
  mkAgent (memory s) (new_obs s) (episode_steps s) (reward_record s)
    (ep_rewards s) f (record_step s) (writer_log s).
Definition set_record_step (n : nat) s : Agent Obs Act :=
  mkAgent (memory s) (new_obs s) (episode_steps s) (reward_record s)
    (ep_rewards s) (ep_actions s) n (writer_log s).
Definition set_writer_log (l : list (Event Act)) s : Agent Obs Act :=
  mkAgent (memory s) (new_obs s) (episode_steps s) (reward_record s)
    (ep_rewards s) (ep_actions s) (record_step s) l.

End Setters.

(** ** State and exception monad *)

Inductive res (A : Type) :=
| Ok (a : A)
| Err (e : Exc).
Arguments Ok {A}.
Arguments Err {A}.

Definition M (S A : Type) := S -> res A * S.

Definition ret {S A : Type} (a : A) : M S A := fun s => (Ok a, s).

Definition bind {S A B : Type} (m : M S A) (k : A -> M S B) : M S B :=
  fun s =>
    match m s with
    | (Ok a, s') => k a s'
    | (Err e, s') => (Err e, s')
    end.

Definition throw {S A : Type} (e : Exc) : M S A := fun s => (Err e, s).
Definition get {S : Type} : M S S := fun s => (Ok s, s).
Definition modify {S : Type} (f : S -> S) : M S unit := fun s => (Ok tt, f s).
Definition lift {S A : Type} (r : res A) : M S A := fun s => (r, s).

Notation "x <- m1 ;; m2" := (bind m1 (fun x => m2))
  (at level 61, m1 at next level, right associativity).
Notation "m1 ;; m2" := (bind m1 (fun _ => m2))
  (at level 61, right associativity).

(** [l[i]] on a Python list / numpy array. *)
Definition py_index {A : Type} (l : list A) (i : nat) : res A :=
  match nth_error l i with
  | Some x => Ok x
  | None => Err IndexError
  end.

(** [l[-1]]. *)
Definition py_last {A : Type} (l : list A) : res A :=
  match rev l with
  | x :: _ => Ok x
  | [] => Err IndexError
  end.

(** [torch.stack] of a Python list of tensors: empty raises. *)
Definition stack {A : Type} (l : list A) : res (list A) :=
  match l with
  | [] => Err RuntimeError
  | _ :: _ => Ok l
  end.

(** [for i in is: body(i)]. *)
Fixpoint for_each {S : Type} (is : list nat) (body : nat -> M S unit) : M S unit :=
  match is with
  | [] => ret tt
  | i :: is' => body i ;; for_each is' body
  end.

(** [collections.deque(maxlen=n).append(x)]: append on the right; past
    capacity the leftmost (oldest) entry is dropped. *)
Definition dq_append {A : Type} (maxlen : nat) (d : list A) (x : A) : list A :=
  let d' := d ++ [x] in
  if Nat.ltb maxlen (length d') then tl d' else d'.

(** ** The agent's methods *)

Section ACAgent.

Variable E : Env.

Local Abbreviation St := (Agent (Obs E) (Act E)).

(** [[self.processor.process(obs_i) for obs_i in obs]] as [observe] writes
    it: with no processor, [None.process] raises on the first element. *)
Definition process_each (obs : list (Obs E)) : M St (list (Obs E)) :=
  match processor E with
  | Some p => ret (map p obs)
  | None =>
      match obs with
      | [] => ret []
      | _ :: _ => throw AttributeError
      end
  end.

(** [if self.processor is not None: obs = [...]], as in [predict] and
    [set_new_obs]. *)
Definition maybe_process (obs : list (Obs E)) : list (Obs E) :=
  match processor E with
  | Some p => map p obs
  | None => obs
  end.

(** [ACAgent.predict(obs, training)]; the drawn sample is
    [dist_sample E dist]. *)
Definition predict (obs : list (Obs E)) (training : bool) : M St (list (Act E)) :=
  s <- get ;;
  let obs := maybe_process obs in
  let state := get_recent_state E (memory s) obs in
  let '(dist, value) := ac_model E state in
  let action := dist_sample E dist in
  (if training then
     let log_prob := dist_log_prob E dist action in
     let entropy := dist_entropy E dist in
     modify (fun s => set_memory
       (mem_store_value_log_prob (memory s) value log_prob entropy) s)
   else ret tt) ;;
  ret action.

(** One [self.writer.add_scalar] / [add_histogram] call. *)
Definition write (e : Event (Act E)) : M St unit :=
  fun s =>
    if sink_accepts E e then (Ok tt, set_writer_log (writer_log s ++ [e]) s)
    else (Err SinkError, s).

(** The body of the loop of [record] for worker [i]. *)
Definition record_worker (action : list (Act E)) (reward : list Q)
    (terminal : list bool) (i : nat) : M St unit :=
  r <- lift (py_index reward i) ;;
  modify (fun s => set_reward_record
    (upd (reward_record s) i (dq_append (smooth_length E) (reward_record s i) r)) s) ;;
  modify (fun s => set_ep_rewards (upd (ep_rewards s) i (ep_rewards s i ++ [r])) s) ;;
  a <- lift (py_index action i) ;;
  modify (fun s => set_ep_actions (upd (ep_actions s) i (ep_actions s i ++ [a])) s) ;;
  t <- lift (py_index terminal i) ;;
  if t then
    s <- get ;;
    write (EvRewardSum i (qsum (ep_rewards s i)) (episode_steps s i)) ;;
    write (EvActionHist i (ep_actions s i) (episode_steps s i)) ;;
    write (EvRewardDist i (ep_rewards s i) (episode_steps s i)) ;;
    modify (fun s => set_episode_steps
      (upd (episode_steps s) i (S (episode_steps s i))) s) ;;
    modify (fun s => set_ep_rewards (upd (ep_rewards s) i []) s) ;;
    modify (fun s => set_ep_actions (upd (ep_actions s) i []) s)
  else ret tt.

(** [ACAgent.record(action, reward, terminal)]. *)
Definition record (action : list (Act E)) (reward : list Q)
    (terminal : list bool) : M St unit :=
  for_each (seq 0 (length action)) (record_worker action reward terminal) ;;
  modify (fun s => set_record_step (S (record_step s)) s).

(** [ACAgent.observe(obs, action, reward, terminal, info, training)]. *)
Definition observe (obs : list (Obs E)) (action : list (Act E))
    (reward : list Q) (terminal : list bool) (info : unit) (training : bool)
    : M St unit :=
  obs <- process_each obs ;;
  modify (fun s => set_memory
    (mem_append (memory s) obs action reward terminal training) s) ;;
  record action reward terminal.

(** [ACAgent.set_new_obs(new_obs)]. *)
Definition set_new_obs (obs : list (Obs E)) : M St unit :=
  modify (set_new_obs_field (Some (maybe_process obs))).

(** [ACAgent.get_newest_state()]: [self.new_obs] unset raises. *)
Definition get_newest_state : M St (State E) :=
  s <- get ;;
  match new_obs s with
  | Some o => ret (get_recent_state E (memory s) o)
  | None => throw AttributeError
  end.

(** Modelled from the spec: [ACMemory.sample()] returns the full-horizon
    batch; querying it before [num_frames_per_proc] steps are stored is a
    precondition violation (fail fast). *)
Definition mem_sample (m : Memory (Obs E) (Act E)) : res (Memory (Obs E) (Act E)) :=
  if Nat.ltb (length (mem_reward m)) (num_frames_per_proc E)
  then Err RuntimeError else Ok m.

(** [torch.tensor(np.array(experiences.reward))[t]], read per worker. *)
Definition row (l : list Q) : arr := fun w => nth w l 0.

(** [(1. - np.array(experiences.terminal, dtype=float))[t]]. *)
Definition mask_row (l : list bool) : arr :=
  fun w => 1 - (if nth w l false then 1 else 0).

(** [torch.sum(value, -1)]. *)
Definition sum_last (v : nat -> list Q) : arr := fun w => qsum (v w).

(** [for t in range(T - 1)]: the TD residuals from cached values. *)
Fixpoint td_deltas (rewards masks values : list arr) (ts : list nat)
    : M St (list arr) :=
  match ts with
  | [] => ret []
  | t :: ts' =>
      r <- lift (py_index rewards t) ;;
      v1 <- lift (py_index values (S t)) ;;
      m <- lift (py_index masks t) ;;
      v0 <- lift (py_index values t) ;;
      let target := fun w => r w + v1 w * m w in
      let delta := fun w => target w - v0 w in
      rest <- td_deltas rewards masks values ts' ;;
      ret (delta :: rest)
  end.

(** The local variables of [aggregate_experiences] once [deltas] is
    complete (lines up to [deltas.append(new_delta)]). *)
Record Collected := mkCollected {
  c_log_probs : list arr;
  c_entropies : list arr;
  c_T : nat;
  c_deltas : list arr
}.

(** [aggregate_experiences], from [self.memory.sample()] to
    [deltas.append(new_delta)]. *)
Definition collect : M St Collected :=
  s <- get ;;
  ex <- lift (mem_sample (memory s)) ;;
  let rewards := map row (mem_reward ex) in
  let masks := map mask_row (mem_terminal ex) in
  values <- lift (stack (mem_value ex)) ;;
  let values := map sum_last values in
  log_probs <- lift (stack (mem_log_prob ex)) ;;
  entropies <- lift (stack (mem_entropy ex)) ;;
  let T := length rewards in
  deltas <- td_deltas rewards masks values (seq 0 (T - 1)) ;;
  new_state <- get_newest_state ;;
  let new_value := sum_last (snd (ac_model E new_state)) in
  r_last <- lift (py_last rewards) ;;
  m_last <- lift (py_last masks) ;;
  let new_target := fun w => r_last w + new_value w * m_last w in
  v_last <- lift (py_last values) ;;
  let new_delta := fun w => new_target w - v_last w in
  ret (mkCollected log_probs entropies T (deltas ++ [new_delta])).

(** The inner loop [for t in range(t_st, T): adv += deltas[t] *
    (decay_rate ** power); power += 1.]; [deltas] has [T] entries, so the
    index is always in range. *)
Fixpoint gae_inner (decay_rate : Q) (deltas : list arr) (adv : arr)
    (power : nat) (ts : list nat) : arr :=
  match ts with
  | [] => adv
  | t :: ts' =>
      gae_inner decay_rate deltas
        (fun w => adv w + nth t deltas azero w * decay_rate ^ Z.of_nat power)
        (S power) ts'
  end.

(** The outer loop [for t_st in range(T)], starting each sum at [adv = 0.]. *)
Definition gae_advs (decay_rate : Q) (T : nat) (deltas : list arr) : list arr :=
  map (fun t_st => gae_inner decay_rate deltas azero 0 (seq t_st (T - t_st)))
    (seq 0 T).

(** [ACAgent.aggregate_experiences()]: returns
    [(advs, log_probs, entropies)] and resets the store. *)
Definition aggregate_experiences : M St (list arr * list arr * list arr) :=
  c <- collect ;;
  let decay_rate := discount E * gae_lambda E in
  let advs := gae_advs decay_rate (c_T c) (c_deltas c) in
  modify (fun s => set_memory empty_memory s) ;;
  ret (advs, c_log_probs c, c_entropies c).

End ACAgent.

(** A training-loop driver (spec 4.2: per timestep one [predict], then the
    paired [observe] with the next observation). *)
Definition rollout (E : Env) (training : bool)
    : list (list (Obs E) * list (Obs E) * list Q * list bool) ->
      M (Agent (Obs E) (Act E)) unit :=
  fix go steps :=
    match steps with
    | [] => ret tt
    | (obs, next_obs, reward, terminal) :: rest =>
        action <- predict E obs training ;;
        observe E next_obs action reward terminal tt training ;;
        go rest
    end.

(** A sequence of [record] calls. *)
Definition run_records (E : Env)
    : list (list (Act E) * list Q * list bool) -> M (Agent (Obs E) (Act E)) unit :=
  fix go calls :=
    match calls with
    | [] => ret tt
    | (action, reward, terminal) :: rest =>
        record E action reward terminal ;; go rest
    end.

(** ** Concrete collaborators for evaluation

    Observations are one number per worker, the windowed state is the
    observation list itself, the network's value head returns that number,
    and the sampler draws action [0] for every worker. *)
Definition env_ex (proc : option (Q -> Q)) (sink : Event nat -> bool)
    (frames : nat) (lam : Q) : Env := {|
  Obs := Q;
  Act := nat;
  State := list Q;
  Dist := list Q;
  processor := proc;
  get_recent_state := fun _ obs => obs;
  ac_model := fun st => (st, fun w => [nth w st 0]);
  dist_sample := fun d => map (fun _ => 0%nat) d;
  dist_log_prob := fun _ _ => azero;
  dist_entropy := fun _ => azero;
  sink_accepts := sink;
  smooth_length := 2;
  num_frames_per_proc := frames;
  discount := 99 # 100;
  gae_lambda := lam
|}.

(** Spec section 8's scenario: 2 workers, [T = 3], rewards [1,1,1] and
    [0,0,5], worker 1 terminal at [t = 2], cached values [0.5,0.6,0.7] and
    [0.1,0.1,0.1], bootstrap [V_T = [0.8, 0.0]]. *)
Definition scenario_memory : Memory Q nat :=
  mkMemory [[0; 0]; [0; 0]; [0; 0]] [[0%nat; 0%nat]; [0%nat; 0%nat]; [0%nat; 0%nat]]
    [[1; 0]; [1; 0]; [1; 5]]
    [[false; false]; [false; false]; [false; true]]
    [fun w => [nth w [1 # 2; 1 # 10] 0]; fun w => [nth w [6 # 10; 1 # 10] 0];
     fun w => [nth w [7 # 10; 1 # 10] 0]]
    [azero; azero; azero] [azero; azero; azero].

Definition scenario_agent : Agent Q nat :=
  set_new_obs_field (Some [8 # 10; 0]) (set_memory scenario_memory init_agent).

Definition env_scenario (lam : Q) : Env :=
  env_ex (Some (fun x => x)) (fun _ => true) 3 lam.

(** One worker, [T = 2], an episode boundary at [t = 0]. *)
Definition boundary_agent : Agent Q nat :=
  set_new_obs_field (Some [0])
    (set_memory (mkMemory [[0]; [0]] [[0%nat]; [0%nat]] [[0]; [1]]
       [[true]; [false]] [fun _ => [0]; fun _ => [0]] [azero; azero] [azero; azero])
     init_agent).

(** The summary [record] emits for worker [i] when it sees reward [r],
    action [a] and terminal flag [t]: the episode lists with the new entry
    appended, tagged with the current episode index. *)
Definition episode_summary {Obs Act : Type} (s : Agent Obs Act) (i : nat)
    (a : Act) (r : Q) (t : bool) : list (Event Act) :=
  if t then
    [EvRewardSum i (qsum (ep_rewards s i ++ [r])) (episode_steps s i);
     EvActionHist i (ep_actions s i ++ [a]) (episode_steps s i);
     EvRewardDist i (ep_rewards s i ++ [r]) (episode_steps s i)]
  else [].

(** The same, read from the arguments of [record]. *)
Definition worker_summary {Obs Act : Type} (s : Agent Obs Act)
    (action : list Act) (reward : list Q) (terminal : list bool) (i : nat)
    : list (Event Act) :=
  match nth_error action i, nth_error reward i, nth_error terminal i with
  | Some a, Some r, Some t => episode_summary s i a r t
  | _, _, _ => []
  end.

Definition env_boundary : Env := env_ex (Some (fun x => x)) (fun _ => true) 2 (95 # 100).

(** ** The spec's formulas for the advantages, to compare with [gae_advs] *)

(** Spec 4.3 step 2 as written:
    [adv[t_start] = sum_{t = t_start}^{T-1} delta[t] * (lambda gamma)^(t - t_start)]. *)
Definition nested_sum (decay_rate : Q) (T : nat) (deltas : list arr) (t_start : nat) : arr :=
  fun w => fold_right Qplus 0
    (map (fun t => nth t deltas azero w * decay_rate ^ Z.of_nat (t - t_start))
       (seq t_start (T - t_start))).

(** Spec 4.3's backward recurrence
    [adv[t] = delta[t] + lambda gamma * mask[t] * adv[t+1]], [adv[T] = 0],
    unrolled [k] steps from [t]. *)
Fixpoint masked_adv (decay_rate : Q) (masks deltas : list arr) (t k : nat) : arr :=
  match k with
  | O => azero
  | S k' => fun w => nth t deltas azero w
                     + decay_rate * nth t masks azero w
                       * masked_adv decay_rate masks deltas (S t) k' w
  end.

Definition masked_recurrence (decay_rate : Q) (T : nat) (masks deltas : list arr)
    (t : nat) : arr :=
  masked_adv decay_rate masks deltas t (T - t).

(** The same recurrence without the mask factor. *)
Fixpoint plain_adv (decay_rate : Q) (deltas : list arr) (t k : nat) : arr :=
  match k with
  | O => azero
  | S k' => fun w => nth t deltas azero w
                     + decay_rate * plain_adv decay_rate deltas (S t) k' w
  end.

Definition plain_recurrence (decay_rate : Q) (T : nat) (deltas : list arr) (t : nat) : arr :=
  plain_adv decay_rate deltas t (T - t).

(** * Proofs *)

(** ** Frame reasoning: state predicates kept by a computation,
    whether it returns or raises. *)

Definition preserves {S A : Type} (P : S -> Prop) (m : M S A) : Prop :=
  forall s, P s -> P (snd (m s)).

Lemma preserves_ret {S A : Type} (P : S -> Prop) (a : A) : preserves P (ret a).
Proof. intros s H; exact H. Qed.

Lemma preserves_get {S : Type} (P : S -> Prop) : preserves P get.
Proof. intros s H; exact H. Qed.

Lemma preserves_throw {S A : Type} (P : S -> Prop) e : preserves P (@throw S A e).
Proof. intros s H; exact H. Qed.

Lemma preserves_lift {S A : Type} (P : S -> Prop) (r : res A) : preserves P (lift r).
Proof. intros s H; exact H. Qed.

Lemma preserves_modify {S : Type} (P : S -> Prop) (f : S -> S) :
  (forall s, P s -> P (f s)) -> preserves P (modify f).
Proof. intros Hf s H; exact (Hf s H). Qed.

Lemma preserves_bind {S A B : Type} (P : S -> Prop) (m : M S A) (k : A -> M S B) :
  preserves P m -> (forall a, preserves P (k a)) -> preserves P (bind m k).
Proof.
  intros Hm Hk s H; unfold bind.
  specialize (Hm s H); destruct (m s) as [[a|e] s']; simpl in *; auto.
  apply Hk; exact Hm.
Qed.

Lemma preserves_if {S A : Type} (P : S -> Prop) (b : bool) (m1 m2 : M S A) :
  preserves P m1 -> preserves P m2 -> preserves P (if b then m1 else m2).
Proof. destruct b; auto. Qed.

Lemma preserves_for_each {S : Type} (P : S -> Prop) is (body : nat -> M S unit) :
  (forall i, preserves P (body i)) -> preserves P (for_each is body).
Proof.
  intros Hb; induction is as [|i is IH]; simpl.
  - apply preserves_ret.
  - apply preserves_bind; auto.
Qed.

Lemma preserves_write (E : Env) (P : Agent (Obs E) (Act E) -> Prop) e :
  (forall s l, P s -> P (set_writer_log l s)) -> preserves P (write E e).
Proof.
  intros HP s Hs; unfold write.
  destruct (sink_accepts E e); simpl; auto.
Qed.

Create HintDb frame.
#[local] Hint Resolve preserves_ret preserves_get preserves_throw preserves_lift
  preserves_bind preserves_if preserves_for_each : frame.

(** Split a computation into its steps; leave the [modify] side
    conditions and state updates. *)
Ltac frame :=
  repeat first
    [ apply preserves_bind; [|intro]
    | apply preserves_for_each; intro
    | apply preserves_if
    | apply preserves_write; intros ?s ?l ?Hs
    | apply preserves_modify; intros ?s ?Hs
    | apply preserves_ret | apply preserves_get | apply preserves_lift
    | apply preserves_throw
    | match goal with |- preserves _ (let '(_, _) := ?p in _) => destruct p end ].

Section Proofs.

Variable E : Env.

Local Abbreviation St := (Agent (Obs E) (Act E)).

Lemma upd_eq {A : Type} (f : nat -> A) i v : upd f i v i = v.
Proof. unfold upd; rewrite Nat.eqb_refl; reflexivity. Qed.

Lemma upd_neq {A : Type} (f : nat -> A) i j v : j <> i -> upd f i v j = f j.
Proof. intros H; unfold upd; apply Nat.eqb_neq in H; rewrite H; reflexivity. Qed.

(** The window length kept by [deque(maxlen=n).append]. *)
Lemma dq_append_length {A : Type} n (d : list A) x :
  (length d <= n)%nat -> (length (dq_append n d x) <= n)%nat.
Proof.
  intros H; unfold dq_append.
  destruct (Nat.ltb n (length (d ++ [x]))) eqn:E1.
  - apply Nat.ltb_lt in E1; rewrite length_app in E1; simpl in E1.
    rewrite length_tl, length_app; simpl; lia.
  - apply Nat.ltb_ge in E1; exact E1.
Qed.

Lemma record_worker_ok action reward terminal i (s s1 : St) :
  record_worker E action reward terminal i s = (Ok tt, s1) ->
  exists a r t,
    nth_error action i = Some a /\ nth_error reward i = Some r /\
    nth_error terminal i = Some t /\
    memory s1 = memory s /\ new_obs s1 = new_obs s /\
    record_step s1 = record_step s /\
    writer_log s1 = writer_log s ++ episode_summary s i a r t /\
    (forall j, j <> i ->
       episode_steps s1 j = episode_steps s j /\
       reward_record s1 j = reward_record s j /\
       ep_rewards s1 j = ep_rewards s j /\ ep_actions s1 j = ep_actions s j) /\
    episode_steps s1 i = (if t then S (episode_steps s i) else episode_steps s i) /\
    reward_record s1 i = dq_append (smooth_length E) (reward_record s i) r /\
    ep_rewards s1 i = (if t then [] else ep_rewards s i ++ [r]) /\
    ep_actions s1 i = (if t then [] else ep_actions s i ++ [a]).
Proof.
  intros H.
  unfold record_worker, bind, lift, modify, get, ret, py_index in H.
  destruct (nth_error reward i) as [r|] eqn:Hr; [|discriminate].
  destruct (nth_error action i) as [a|] eqn:Ha; [|discriminate].
  destruct (nth_error terminal i) as [t|] eqn:Ht; [|discriminate].
  exists a, r, t.
  destruct t.
  - unfold write in H; simpl in H.
    destruct (sink_accepts E _); [|discriminate].
    simpl in H; destruct (sink_accepts E _); [|discriminate].
    simpl in H; destruct (sink_accepts E _); [|discriminate].
    simpl in H; injection H as <-; simpl.
    rewrite !upd_eq.
    repeat match goal with |- _ /\ _ => split end; try reflexivity.
    + rewrite <- !app_assoc; reflexivity.
    + intros j Hj; rewrite !upd_neq by exact Hj; repeat split.
  - simpl in H; injection H as <-; simpl.
    rewrite !upd_eq.
    repeat match goal with |- _ /\ _ => split end; try reflexivity.
    + rewrite app_nil_r; reflexivity.
    + intros j Hj; rewrite !upd_neq by exact Hj; repeat split.
Qed.

Lemma worker_summary_frame (s s1 : St) action reward terminal j :
  episode_steps s1 j = episode_steps s j -> ep_rewards s1 j = ep_rewards s j ->
  ep_actions s1 j = ep_actions s j ->
  worker_summary s1 action reward terminal j = worker_summary s action reward terminal j.
Proof.
  intros H1 H2 H3; unfold worker_summary, episode_summary.
  rewrite H1, H2, H3; reflexivity.
Qed.

Lemma flat_map_ext_in {A B : Type} (f g : A -> list B) (l : list A) :
  (forall x, In x l -> f x = g x) -> flat_map f l = flat_map g l.
Proof.
  induction l as [|x l IH]; simpl; intros H; [reflexivity|].
  rewrite H by (left; reflexivity); rewrite IH; auto.
Qed.

Lemma flat_map_split {A B : Type} (f : A -> list B) (l : list A) x :
  In x l -> exists pre post, flat_map f l = pre ++ f x ++ post.
Proof.
  induction l as [|y l IH]; simpl; intros H; [contradiction|].
  destruct H as [<-|H].
  - exists [], (flat_map f l); reflexivity.
  - destruct (IH H) as (pre & post & Hp).
    exists (f y ++ pre), post; rewrite Hp, <- app_assoc; reflexivity.
Qed.

(** The loop of [record] over distinct workers, when it completes. *)
Lemma for_each_record_ok action reward terminal is (s s' : St) :
  NoDup is ->
  for_each is (record_worker E action reward terminal) s = (Ok tt, s') ->
  memory s' = memory s /\ new_obs s' = new_obs s /\
  record_step s' = record_step s /\
  writer_log s' = writer_log s ++ flat_map (worker_summary s action reward terminal) is /\
  (forall j, ~ In j is ->
     episode_steps s' j = episode_steps s j /\
     reward_record s' j = reward_record s j /\
     ep_rewards s' j = ep_rewards s j /\ ep_actions s' j = ep_actions s j) /\
  (forall j, In j is ->
     exists a r t,
       nth_error action j = Some a /\ nth_error reward j = Some r /\
       nth_error terminal j = Some t /\
       episode_steps s' j = (if t then S (episode_steps s j) else episode_steps s j) /\
       reward_record s' j = dq_append (smooth_length E) (reward_record s j) r /\
       ep_rewards s' j = (if t then [] else ep_rewards s j ++ [r]) /\
       ep_actions s' j = (if t then [] else ep_actions s j ++ [a])).
Proof.
  revert s.
  induction is as [|i is IH]; intros s Hnd H.
  - simpl in H; injection H as <-.
    rewrite app_nil_r.
    repeat split; auto; intros j Hj; contradiction.
  - inversion Hnd as [|? ? Hni Hnd']; subst.
    simpl in H; unfold bind in H.
    destruct (record_worker E action reward terminal i s) as [[[]|e] s1] eqn:Hw;
      [|discriminate].
    destruct (record_worker_ok _ _ _ _ _ _ Hw)
      as (a & r & t & Ha & Hr & Ht & Hm & Hn & Hrs & Hlog & Hoth & Hst & Hrr & Her & Hea).
    destruct (IH s1 Hnd' H) as (Hm' & Hn' & Hrs' & Hlog' & Hoth' & Hin').
    assert (Hsum : flat_map (worker_summary s1 action reward terminal) is =
                   flat_map (worker_summary s action reward terminal) is).
    { apply flat_map_ext_in; intros j Hj.
      assert (Hji : j <> i) by (intros ->; contradiction).
      destruct (Hoth j Hji) as (H1 & _ & H2 & H3).
      apply worker_summary_frame; assumption. }
    assert (Hwi : worker_summary s action reward terminal i = episode_summary s i a r t).
    { unfold worker_summary; rewrite Ha, Hr, Ht; reflexivity. }
    repeat match goal with |- _ /\ _ => split end.
    + congruence.
    + congruence.
    + congruence.
    + rewrite Hlog', Hsum, Hlog; simpl; rewrite Hwi, <- app_assoc; reflexivity.
    + intros j Hj.
      assert (Hji : j <> i) by (intros ->; apply Hj; left; reflexivity).
      assert (Hjn : ~ In j is) by (intros Hc; apply Hj; right; exact Hc).
      destruct (Hoth' j Hjn) as (H1 & H2 & H3 & H4).
      destruct (Hoth j Hji) as (H5 & H6 & H7 & H8).
      repeat split; congruence.
    + intros j [<-|Hj].
      * destruct (Hoth' i Hni) as (H1 & H2 & H3 & H4).
        exists a, r, t; repeat split; congruence.
      * assert (Hji : j <> i) by (intros ->; contradiction).
        destruct (Hin' j Hj) as (a' & r' & t' & Ha' & Hr' & Ht' & H1 & H2 & H3 & H4).
        destruct (Hoth j Hji) as (H5 & H6 & H7 & H8).
        exists a', r', t'; rewrite <- H5, <- H6, <- H7, <- H8; repeat split; assumption.
Qed.

Lemma record_worker_success action reward terminal i (s : St) :
  (forall e, sink_accepts E e = true) ->
  (i < length action)%nat -> (i < length reward)%nat -> (i < length terminal)%nat ->
  fst (record_worker E action reward terminal i s) = Ok tt.
Proof.
  intros Hs Ha Hr Ht.
  unfold record_worker, bind, lift, modify, get, ret, py_index.
  destruct (nth_error reward i) eqn:E1; [|apply nth_error_None in E1; lia].
  destruct (nth_error action i) eqn:E2; [|apply nth_error_None in E2; lia].
  destruct (nth_error terminal i) as [[|]|] eqn:E3;
    [| |apply nth_error_None in E3; lia].
  - unfold write; simpl; rewrite !Hs; reflexivity.
  - reflexivity.
Qed.

Lemma for_each_record_success action reward terminal is (s : St) :
  (forall e, sink_accepts E e = true) ->
  (forall i, In i is ->
     (i < length action)%nat /\ (i < length reward)%nat /\ (i < length terminal)%nat) ->
  fst (for_each is (record_worker E action reward terminal) s) = Ok tt.
Proof.
  revert s; induction is as [|i is IH]; intros s Hs Hin; [reflexivity|].
  simpl; unfold bind.
  destruct (Hin i (or_introl eq_refl)) as (H1 & H2 & H3).
  pose proof (record_worker_success action reward terminal i s Hs H1 H2 H3) as Hw.
  destruct (record_worker E action reward terminal i s) as [[[]|e] s1];
    simpl in Hw; [|discriminate].
  apply IH; auto.
  intros j Hj; apply Hin; right; exact Hj.
Qed.

(** The state after [record] returns normally. *)
Lemma record_ok action reward terminal (s s' : St) :
  record E action reward terminal s = (Ok tt, s') ->
  writer_log s' = writer_log s ++
    flat_map (worker_summary s action reward terminal) (seq 0 (length action)) /\
  (forall j, (j < length action)%nat ->
     exists a r t,
       nth_error action j = Some a /\ nth_error reward j = Some r /\
       nth_error terminal j = Some t /\
       episode_steps s' j = (if t then S (episode_steps s j) else episode_steps s j) /\
       reward_record s' j = dq_append (smooth_length E) (reward_record s j) r /\
       ep_rewards s' j = (if t then [] else ep_rewards s j ++ [r]) /\
       ep_actions s' j = (if t then [] else ep_actions s j ++ [a])).
Proof.
  intros H; unfold record, bind, modify in H.
  destruct (for_each (seq 0 (length action)) (record_worker E action reward terminal) s)
    as [[[]|e] s1] eqn:Hf; [|discriminate].
  injection H as <-.
  destruct (for_each_record_ok _ _ _ _ _ _ (seq_NoDup _ _) Hf)
    as (_ & _ & _ & Hlog & _ & Hin).
  split; [exact Hlog|].
  intros j Hj; apply Hin, in_seq; lia.
Qed.

(** ** C6 *)

(** C6: for every worker [i] of a [record] call (sink accepting writes,
    argument arrays of equal length): if [terminal[i]] is true, the episode
    summary (reward sum, action and reward histograms of the episode, the
    new entry included) is emitted tagged with the worker's current episode
    index, then the index is incremented by exactly one and both episode
    lists are emptied; otherwise the index is unchanged and both lists grow
    by exactly the new entry.  The log gains exactly these summaries, in
    worker order. *)
Theorem record_episode_bookkeeping (s : St) action reward terminal :
  (forall e, sink_accepts E e = true) ->
  length reward = length action -> length terminal = length action ->
  let '(result, s') := record E action reward terminal s in
  result = Ok tt /\
  writer_log s' = writer_log s ++
    flat_map (worker_summary s action reward terminal) (seq 0 (length action)) /\
  (forall i a r t,
     nth_error action i = Some a -> nth_error reward i = Some r ->
     nth_error terminal i = Some t ->
     if t then
       (exists pre post, writer_log s' = pre ++
          [EvRewardSum i (qsum (ep_rewards s i ++ [r])) (episode_steps s i);
           EvActionHist i (ep_actions s i ++ [a]) (episode_steps s i);
           EvRewardDist i (ep_rewards s i ++ [r]) (episode_steps s i)] ++ post) /\
       episode_steps s' i = S (episode_steps s i) /\
       ep_rewards s' i = [] /\ ep_actions s' i = []
     else
       episode_steps s' i = episode_steps s i /\
       ep_rewards s' i = ep_rewards s i ++ [r] /\
       ep_actions s' i = ep_actions s i ++ [a]).
Proof.
  intros Hs Hr Ht.
  destruct (record E action reward terminal s) as [result s'] eqn:Hrec.
  assert (Hok : result = Ok tt).
  { unfold record, bind, modify in Hrec.
    pose proof (for_each_record_success action reward terminal
                  (seq 0 (length action)) s Hs) as Hf.
    destruct (for_each (seq 0 (length action)) (record_worker E action reward terminal) s)
      as [[[]|e] s1]; simpl in Hf.
    - injection Hrec as <- _; reflexivity.
    - discriminate Hf; intros i Hi; apply in_seq in Hi; lia. 
    }
  subst result.
  destruct (record_ok _ _ _ _ _ Hrec) as (Hlog & Hin).
  split; [reflexivity|]; split; [exact Hlog|].
  intros i a r t Ha Hr' Ht'.
  assert (Hi : (i < length action)%nat).
  { apply nth_error_Some; rewrite Ha; discriminate. }
  destruct (Hin i Hi) as (a' & r' & t' & Ha2 & Hr2 & Ht2 & H1 & H2 & H3 & H4).
  rewrite Ha in Ha2; rewrite Hr' in Hr2; rewrite Ht' in Ht2.
  injection Ha2 as <-; injection Hr2 as <-; injection Ht2 as <-.
  destruct t.
  - repeat split; auto.
    destruct (flat_map_split (worker_summary s action reward terminal)
                (seq 0 (length action)) i) as (pre & post & Hsplit).
    { apply in_seq; lia. }
    exists (writer_log s ++ pre), post.
    rewrite Hlog, Hsplit, <- app_assoc.
    unfold worker_summary; rewrite Ha, Hr', Ht'; reflexivity.
  - repeat split; auto.
Qed.

(** ** C7 *)

Definition window_bounded (s : St) : Prop :=
  forall j, (length (reward_record s j) <= smooth_length E)%nat.

Lemma record_window_preserved action reward terminal :
  preserves window_bounded (record E action reward terminal).
Proof.
  unfold record, record_worker.
  frame; try (intros j; simpl; apply Hs).
  intros j; simpl; unfold upd.
  destruct (Nat.eqb j _); [apply dq_append_length|]; apply Hs.
Qed.

Lemma run_records_window_preserved calls :
  preserves window_bounded (run_records E calls).
Proof.
  induction calls as [|[[a r] t] calls IH]; simpl.
  - apply preserves_ret.
  - apply preserves_bind; [apply record_window_preserved|intros; exact IH].
Qed.

(** C7: every worker's smoothed reward window ([deque(maxlen=smooth_length)])
    stays within [smooth_length] entries after any sequence of [record] calls
    from the freshly constructed agent, also when a call raises; [record]
    updates a worker's window by one [deque.append]: below capacity the
    reward is appended, at (positive) capacity the oldest entry is evicted
    first. *)
Theorem reward_window_fifo :
  (forall calls j,
     (length (reward_record (snd (run_records E calls init_agent)) j)
        <= smooth_length E)%nat) /\
  (forall (s s' : St) action reward terminal i r,
     record E action reward terminal s = (Ok tt, s') ->
     (i < length action)%nat -> nth_error reward i = Some r ->
     reward_record s' i = dq_append (smooth_length E) (reward_record s i) r) /\
  (forall (d : list Q) x, (length d < smooth_length E)%nat ->
     dq_append (smooth_length E) d x = d ++ [x]) /\
  (forall (d : list Q) x, length d = smooth_length E -> (0 < smooth_length E)%nat ->
     dq_append (smooth_length E) d x = tl d ++ [x]).
Proof.
  split; [|split; [|split]].
  - intros calls; apply run_records_window_preserved.
    intros j; simpl; lia.
  - intros s s' action reward terminal i r Hrec Hi Hr.
    destruct (record_ok _ _ _ _ _ Hrec) as (_ & Hin).
    destruct (Hin i Hi) as (a' & r' & t' & _ & Hr2 & _ & _ & H2 & _).
    rewrite Hr in Hr2; injection Hr2 as <-; exact H2.
  - intros d x Hd; unfold dq_append.
    rewrite length_app; simpl.
    destruct (Nat.ltb_spec (smooth_length E) (length d + 1)); [lia|reflexivity].
  - intros d x Hd Hpos; unfold dq_append.
    rewrite length_app; simpl.
    destruct (Nat.ltb_spec (smooth_length E) (length d + 1)); [|lia].
    destruct d as [|y d]; simpl in *; [lia|reflexivity].
Qed.

(** ** C4 *)

Lemma record_worker_emits action reward terminal j (s : St) a r t :
  nth_error action j = Some a -> nth_error reward j = Some r ->
  nth_error terminal j = Some t ->
  (forall e, In e (episode_summary s j a r t) -> sink_accepts E e = true) ->
  exists s1, record_worker E action reward terminal j s = (Ok tt, s1).
Proof.
  intros Ha Hr Ht Hacc.
  unfold record_worker, bind, lift, modify, get, ret, py_index.
  rewrite Hr, Ha, Ht.
  destruct t; [|eexists; reflexivity].
  unfold write; simpl; rewrite !upd_eq.
  unfold episode_summary in Hacc.
  rewrite (Hacc _ (or_introl eq_refl)); simpl.
  rewrite (Hacc _ (or_intror (or_introl eq_refl))); simpl.
  rewrite (Hacc _ (or_intror (or_intror (or_introl eq_refl)))); simpl.
  eexists; reflexivity.
Qed.

Lemma record_worker_sink_raises action reward terminal i (s : St) a r :
  nth_error action i = Some a -> nth_error reward i = Some r ->
  nth_error terminal i = Some true ->
  (exists e, In e (episode_summary s i a r true) /\ sink_accepts E e = false) ->
  let '(result, s2) := record_worker E action reward terminal i s in
  result = Err SinkError /\
  (exists pre e post, episode_summary s i a r true = pre ++ e :: post /\
     Forall (fun e' => sink_accepts E e' = true) pre /\ sink_accepts E e = false /\
     writer_log s2 = writer_log s ++ pre) /\
  episode_steps s2 = episode_steps s /\ record_step s2 = record_step s /\
  reward_record s2 = upd (reward_record s) i (dq_append (smooth_length E) (reward_record s i) r) /\
  ep_rewards s2 = upd (ep_rewards s) i (ep_rewards s i ++ [r]) /\
  ep_actions s2 = upd (ep_actions s) i (ep_actions s i ++ [a]).
Proof.
  intros Ha Hr Ht (e & He & Hrej).
  unfold record_worker, bind, lift, modify, get, ret, py_index.
  rewrite Hr, Ha, Ht; unfold write; simpl; rewrite !upd_eq.
  unfold episode_summary in He |- *.
  destruct (sink_accepts E (EvRewardSum i _ _)) eqn:A1; simpl.
  - rewrite ?upd_eq.
    destruct (sink_accepts E (EvActionHist i _ _)) eqn:A2; simpl.
    + rewrite ?upd_eq.
      destruct (sink_accepts E (EvRewardDist i _ _)) eqn:A3; simpl.
      * exfalso; destruct He as [<-|[<-|[<-|[]]]]; congruence.
      * split; [reflexivity|].
        split; [eexists [EvRewardSum i (qsum (ep_rewards s i ++ [r])) (episode_steps s i);
                        EvActionHist i (ep_actions s i ++ [a]) (episode_steps s i)], _, [];
                split; [reflexivity|]; split; [repeat constructor; assumption|];
                split; [exact A3|rewrite <- app_assoc; reflexivity]|].
        repeat split.
    + split; [reflexivity|].
      split; [eexists [EvRewardSum i (qsum (ep_rewards s i ++ [r])) (episode_steps s i)], _, _;
              split; [reflexivity|]; split; [repeat constructor; assumption|];
              split; [exact A2|reflexivity]|].
      repeat split.
  - split; [reflexivity|].
    split; [eexists [], _, _; split; [reflexivity|]; split; [constructor|];
            split; [exact A1|rewrite app_nil_r; reflexivity]|].
    repeat split.
Qed.

Lemma for_each_emits action reward terminal n : forall j0 (s : St),
  (j0 + n <= length action)%nat -> length reward = length action ->
  length terminal = length action ->
  (forall e, In e (flat_map (worker_summary s action reward terminal) (seq j0 n)) ->
     sink_accepts E e = true) ->
  exists s1, for_each (seq j0 n) (record_worker E action reward terminal) s = (Ok tt, s1).
Proof.
  induction n as [|n IH]; intros j0 s Hn Hr Ht Hacc; [eexists; reflexivity|].
  destruct (nth_error action j0) as [a|] eqn:Ha; [|apply nth_error_None in Ha; lia].
  destruct (nth_error reward j0) as [r|] eqn:Er; [|apply nth_error_None in Er; lia].
  destruct (nth_error terminal j0) as [t|] eqn:Et; [|apply nth_error_None in Et; lia].
  assert (Hw : exists s1, record_worker E action reward terminal j0 s = (Ok tt, s1)).
  { apply (record_worker_emits _ _ _ _ _ a r t Ha Er Et).
    intros e He; apply Hacc; cbn [seq flat_map]; apply in_or_app; left.
    unfold worker_summary; rewrite Ha, Er, Et; exact He. }
  destruct Hw as (s1 & Hw).
  destruct (record_worker_ok _ _ _ _ _ _ Hw) as (_ & _ & _ & _ & _ & _ & _ & _ & _ & _ & Hoth & _).
  destruct (IH (S j0) s1) as (s2 & H2); [lia|exact Hr|exact Ht| |].
  - intros e He; apply Hacc; cbn [seq flat_map]; apply in_or_app; right.
    erewrite flat_map_ext_in; [exact He|].
    intros j Hj; apply in_seq in Hj.
    destruct (Hoth j ltac:(lia)) as (H1 & _ & H3 & H4).
    symmetry; apply worker_summary_frame; assumption.
  - exists s2; cbn [seq for_each]; unfold bind; rewrite Hw; exact H2.
Qed.

Lemma for_each_app {S : Type} l1 l2 (body : nat -> M S unit) s :
  for_each (l1 ++ l2) body s = bind (for_each l1 body) (fun _ => for_each l2 body) s.
Proof.
  revert s; induction l1 as [|i l1 IH]; intros s; [reflexivity|].
  cbn [for_each app]; unfold bind.
  destruct (body i s) as [[u|e] s1]; [|reflexivity].
  rewrite IH; unfold bind; reflexivity.
Qed.

Lemma record_sink_raises_at action reward terminal i a r (s : St) :
  length reward = length action -> length terminal = length action ->
  nth_error action i = Some a -> nth_error reward i = Some r ->
  nth_error terminal i = Some true ->
  (forall e, In e (flat_map (worker_summary s action reward terminal) (seq 0 i)) ->
     sink_accepts E e = true) ->
  (exists e, In e (episode_summary s i a r true) /\ sink_accepts E e = false) ->
  let '(result, s') := record E action reward terminal s in
  result = Err SinkError /\
  (exists pre e post, episode_summary s i a r true = pre ++ e :: post /\
     Forall (fun e' => sink_accepts E e' = true) pre /\ sink_accepts E e = false /\
     writer_log s' = writer_log s ++
       flat_map (worker_summary s action reward terminal) (seq 0 i) ++ pre) /\
  episode_steps s' i = episode_steps s i /\
  ep_rewards s' i = ep_rewards s i ++ [r] /\ ep_actions s' i = ep_actions s i ++ [a] /\
  record_step s' = record_step s /\
  (forall j, (i < j)%nat ->
     episode_steps s' j = episode_steps s j /\ reward_record s' j = reward_record s j /\
     ep_rewards s' j = ep_rewards s j /\ ep_actions s' j = ep_actions s j).
Proof.
  intros Hr Ht Ha Er Et Hacc Hrej.
  assert (Hi : (i < length action)%nat) by (apply nth_error_Some; rewrite Ha; discriminate).
  destruct (for_each_emits action reward terminal i 0 s ltac:(lia) Hr Ht Hacc) as (s1 & H1).
  destruct (for_each_record_ok _ _ _ _ _ _ (seq_NoDup _ _) H1)
    as (_ & _ & Hrs1 & Hlog1 & Hoth1 & _).
  assert (Hni : forall j, (i <= j)%nat -> ~ In j (seq 0 i))
    by (intros j Hj Hc; apply in_seq in Hc; lia).
  destruct (Hoth1 i (Hni i (le_n i))) as (Hk1 & Hrr1 & Her1 & Hea1).
  assert (Hsum : episode_summary s1 i a r true = episode_summary s i a r true)
    by (unfold episode_summary; rewrite Hk1, Her1, Hea1; reflexivity).
  assert (Hrej1 : exists e, In e (episode_summary s1 i a r true) /\ sink_accepts E e = false)
    by (rewrite Hsum; exact Hrej).
  pose proof (record_worker_sink_raises action reward terminal i s1 a r Ha Er Et Hrej1) as Hw.
  assert (Hseq : seq 0 (length action) = seq 0 i ++ i :: seq (S i) (length action - S i)).
  { replace (length action) with (i + S (length action - S i))%nat at 1 by lia.
    rewrite seq_app; reflexivity. }
  unfold record, bind at 1.
  rewrite Hseq, for_each_app; unfold bind at 1; rewrite H1.
  cbn [for_each]; unfold bind at 1.
  destruct (record_worker E action reward terminal i s1) as [res s2].
  destruct Hw as (-> & (pre & e & post & Hsplit & Hpre & He & Hlog2) & Hk2 & Hrs2 & Hrr2 & Her2 & Hea2).
  rewrite Hsum in Hsplit.
  split; [reflexivity|].
  split; [exists pre, e, post; split; [exact Hsplit|split; [exact Hpre|split; [exact He|]]]|].
  { rewrite Hlog2, Hlog1, <- app_assoc; reflexivity. }
  rewrite Hk2, Her2, Hea2, !upd_eq, Her1, Hea1.
  split; [exact Hk1|split; [reflexivity|split; [reflexivity|split; [congruence|]]]].
  intros j Hj.
  assert (Hji : j <> i) by lia.
  destruct (Hoth1 j (Hni j ltac:(lia))) as (H5 & H6 & H7 & H8).
  rewrite Hrr2, !upd_neq by exact Hji.
  repeat split; assumption.
Qed.

(** C4 (amended): the writes to the telemetry sink in [record] are not
    guarded.  Let worker [i] of a [record] call be terminal, let the sink
    accept every summary of the workers before it, and let it raise on one
    of worker [i]'s three summary writes (the reward sum, the action
    histogram or the reward histogram, whichever comes first).  Then the
    error propagates out of [record]: the log holds the earlier summaries
    and the writes of worker [i] before the failing one, worker [i]'s
    episode index is not incremented and its episode lists are not cleared
    (they hold the new entry), [record_step] is not incremented, and no
    later worker is touched.  The error also propagates out of [observe]
    (given a processor, see C5). *)
Theorem record_sink_error_propagates (s : St) action reward terminal i a r :
  length reward = length action -> length terminal = length action ->
  nth_error action i = Some a -> nth_error reward i = Some r ->
  nth_error terminal i = Some true ->
  (forall e, In e (flat_map (worker_summary s action reward terminal) (seq 0 i)) ->
     sink_accepts E e = true) ->
  (exists e, In e (episode_summary s i a r true) /\ sink_accepts E e = false) ->
  (let '(result, s') := record E action reward terminal s in
   result = Err SinkError /\
   (exists pre e post, episode_summary s i a r true = pre ++ e :: post /\
      Forall (fun e' => sink_accepts E e' = true) pre /\ sink_accepts E e = false /\
      writer_log s' = writer_log s ++
        flat_map (worker_summary s action reward terminal) (seq 0 i) ++ pre) /\
   episode_steps s' i = episode_steps s i /\
   ep_rewards s' i = ep_rewards s i ++ [r] /\ ep_actions s' i = ep_actions s i ++ [a] /\
   record_step s' = record_step s /\
   (forall j, (i < j)%nat ->
      episode_steps s' j = episode_steps s j /\ reward_record s' j = reward_record s j /\
      ep_rewards s' j = ep_rewards s j /\ ep_actions s' j = ep_actions s j)) /\
  (forall p obs info training, processor E = Some p ->
     fst (observe E obs action reward terminal info training s) = Err SinkError).
Proof.
  intros Hr Ht Ha Er Et Hacc Hrej.
  split; [exact (record_sink_raises_at action reward terminal i a r s Hr Ht Ha Er Et Hacc Hrej)|].
  intros p obs info training Hp.
  unfold observe, process_each; rewrite Hp; unfold bind at 1; cbn [ret].
  unfold bind at 1; cbn [modify].
  set (s0 := set_memory (mem_append (memory s) (map p obs) action reward terminal training) s).
  pose proof (record_sink_raises_at action reward terminal i a r s0 Hr Ht Ha Er Et Hacc Hrej)
    as H.
  destruct (record E action reward terminal s0) as [res s'].
  destruct H as [-> _]; reflexivity.
Qed.

(** ** C5 *)

(** C5 (code bug): with no feature processor configured, [observe] raises
    [AttributeError] on any non-empty observation batch before storing
    anything, whereas [predict] on the same batch runs: it guards with
    [if self.processor is not None] and [observe] does not. *)
Theorem observe_without_processor_raises (s : St) o obs action reward terminal info
    training :
  processor E = None ->
  observe E (o :: obs) action reward terminal info training s = (Err AttributeError, s) /\
  fst (predict E (o :: obs) training s) =
    Ok (dist_sample E (fst (ac_model E (get_recent_state E (memory s) (o :: obs))))).
Proof.
  intros Hp; split.
  - unfold observe, process_each, bind; rewrite Hp; reflexivity.
  - unfold predict, maybe_process, bind, get; rewrite Hp; simpl.
    destruct (ac_model E _) as [dist value]; destruct training; reflexivity.
Qed.

(** ** C10 *)

Definition cache_is (V : list (nat -> list Q)) (L En : list arr) (s : St) : Prop :=
  mem_value (memory s) = V /\ mem_log_prob (memory s) = L /\ mem_entropy (memory s) = En.

Lemma predict_eval (s : St) obs :
  predict E obs false s =
    (Ok (dist_sample E (fst (ac_model E (get_recent_state E (memory s) (maybe_process E obs))))), s).
Proof.
  unfold predict, bind, get; simpl.
  destruct (ac_model E _) as [dist value]; reflexivity.
Qed.

Lemma observe_keeps_cache V L En obs action reward terminal info training :
  preserves (cache_is V L En) (observe E obs action reward terminal info training).
Proof.
  unfold observe, process_each, record, record_worker.
  destruct (processor E) as [p|]; [|destruct obs].
  all: frame; exact Hs.
Qed.

(** C10: [predict(obs, training=False)] leaves the whole agent state, the
    store included, untouched and returns the action sampled from the
    network's distribution; a rollout driven entirely with
    [training=False] leaves the cached value/log-prob/entropy sequences as
    they were, so empty when they start empty (after construction or
    [reset]). *)
Theorem predict_eval_no_cache :
  (forall (s : St) obs,
     predict E obs false s =
       (Ok (dist_sample E (fst (ac_model E
              (get_recent_state E (memory s) (maybe_process E obs))))), s)) /\
  (forall steps (s : St),
     let s' := snd (rollout E false steps s) in
     mem_value (memory s') = mem_value (memory s) /\
     mem_log_prob (memory s') = mem_log_prob (memory s) /\
     mem_entropy (memory s') = mem_entropy (memory s)) /\
  (forall steps,
     let s' := snd (rollout E false steps init_agent) in
     mem_value (memory s') = [] /\ mem_log_prob (memory s') = [] /\
     mem_entropy (memory s') = []).
Proof.
  assert (Hr : forall steps, forall V L En,
             preserves (cache_is V L En) (rollout E false steps)).
  { intros steps V L En; induction steps as [|[[[o o'] r] t] steps IH]; simpl.
    - apply preserves_ret.
    - apply preserves_bind.
      + intros s Hs; rewrite predict_eval; exact Hs.
      + intros a; apply preserves_bind; [apply observe_keeps_cache|intros; exact IH]. }
  split; [exact predict_eval|split].
  - intros steps s; apply Hr; repeat split.
  - intros steps; apply Hr; repeat split.
Qed.

(** ** The advantage estimator *)

Lemma bind_run {S A B : Type} (m : M S A) (k : A -> M S B) s a s1 :
  m s = (Ok a, s1) -> bind m k s = k a s1.
Proof. intros H; unfold bind; rewrite H; reflexivity. Qed.

Lemma stack_ok {A : Type} (l : list A) : l <> [] -> stack l = Ok l.
Proof. destruct l; [contradiction|reflexivity]. Qed.

Lemma py_last_ok {A : Type} (l : list A) d :
  l <> [] -> py_last l = Ok (nth (length l - 1) l d).
Proof.
  intros Hl; unfold py_last.
  assert (Hlen : (0 < length l)%nat) by (destruct l; [contradiction|simpl; lia]).
  pose proof (rev_nth l d Hlen) as Hn.
  destruct (rev l) as [|x r] eqn:Hr.
  - apply (f_equal (@length A)) in Hr; rewrite length_rev in Hr; simpl in Hr; lia.
  - simpl in Hn; rewrite Hn; f_equal; f_equal; lia.
Qed.

Definition td_at (rewards masks values : list arr) (t : nat) : arr :=
  fun w => (nth t rewards azero w + nth (S t) values azero w * nth t masks azero w)
           - nth t values azero w.

Lemma td_deltas_ok rewards masks values ts (s : St) :
  (forall t, In t ts ->
     (t < length rewards)%nat /\ (S t < length values)%nat /\ (t < length masks)%nat) ->
  td_deltas E rewards masks values ts s = (Ok (map (td_at rewards masks values) ts), s).
Proof.
  induction ts as [|t ts IH]; intros Hin; [reflexivity|].
  destruct (Hin t (or_introl eq_refl)) as (H1 & H2 & H3).
  simpl; unfold bind, lift, py_index.
  rewrite (nth_error_nth' rewards azero H1), (nth_error_nth' values azero H2),
    (nth_error_nth' masks azero H3), (nth_error_nth' values azero (Nat.lt_succ_l _ _ H2)).
  rewrite IH by (intros t' Ht'; apply Hin; right; exact Ht').
  reflexivity.
Qed.

Lemma nth_map_row l t w : (t < length l)%nat ->
  nth t (map row l) azero w = row (nth t l []) w.
Proof.
  intros Ht; rewrite (nth_indep _ azero (row [])) by (rewrite length_map; exact Ht).
  rewrite map_nth; reflexivity.
Qed.

Lemma nth_map_mask l t w : (t < length l)%nat ->
  nth t (map mask_row l) azero w = mask_row (nth t l []) w.
Proof.
  intros Ht; rewrite (nth_indep _ azero (mask_row [])) by (rewrite length_map; exact Ht).
  rewrite map_nth; reflexivity.
Qed.

Lemma nth_map_sum_last l t w : (t < length l)%nat ->
  nth t (map sum_last l) azero w = sum_last (nth t l (fun _ => [])) w.
Proof.
  intros Ht; rewrite (nth_indep _ azero (sum_last (fun _ => []))) by (rewrite length_map; exact Ht).
  rewrite map_nth; reflexivity.
Qed.

(** What [collect] computes on a completed rollout. *)
Lemma collect_ok (s : St) o T :
  length (mem_reward (memory s)) = T ->
  (num_frames_per_proc E <= T)%nat -> (0 < T)%nat ->
  length (mem_terminal (memory s)) = T -> length (mem_value (memory s)) = T ->
  mem_log_prob (memory s) <> [] -> mem_entropy (memory s) <> [] ->
  new_obs s = Some o ->
  exists ds,
    collect E s =
      (Ok (mkCollected (mem_log_prob (memory s)) (mem_entropy (memory s)) T ds), s) /\
    length ds = T /\
    (forall t w, (S t < T)%nat ->
       nth t ds azero w =
         row (nth t (mem_reward (memory s)) []) w
         + sum_last (nth (S t) (mem_value (memory s)) (fun _ => [])) w
           * mask_row (nth t (mem_terminal (memory s)) []) w
         - sum_last (nth t (mem_value (memory s)) (fun _ => [])) w) /\
    (forall w,
       nth (T - 1) ds azero w =
         row (nth (T - 1) (mem_reward (memory s)) []) w
         + sum_last (snd (ac_model E (get_recent_state E (memory s) o))) w
           * mask_row (nth (T - 1) (mem_terminal (memory s)) []) w
         - sum_last (nth (T - 1) (mem_value (memory s)) (fun _ => [])) w).
Proof.
  intros HTr Hf HT Hterm Hval Hlp Hen Ho.
  set (m := memory s) in *.
  set (rewards := map row (mem_reward m)).
  set (masks := map mask_row (mem_terminal m)).
  set (values := map sum_last (mem_value m)).
  assert (Hsample : mem_sample E m = Ok m).
  { unfold mem_sample; destruct (Nat.ltb_spec (length (mem_reward m)) (num_frames_per_proc E));
      [lia|reflexivity]. }
  assert (Hv : mem_value m <> []) by (intros Hc; rewrite Hc in Hval; simpl in Hval; lia).
  assert (Htd : td_deltas E rewards masks values (seq 0 (T - 1)) s =
                (Ok (map (td_at rewards masks values) (seq 0 (T - 1))), s)).
  { apply td_deltas_ok; intros t Ht; apply in_seq in Ht.
    unfold rewards, masks, values; rewrite !length_map; lia. }
  assert (Hnew : get_newest_state E s = (Ok (get_recent_state E m o), s)).
  { unfold get_newest_state, bind, get; rewrite Ho; reflexivity. }
  assert (Hlr : length rewards = T) by (unfold rewards; rewrite length_map; exact HTr).
  assert (Hlm : length masks = T) by (unfold masks; rewrite length_map; exact Hterm).
  assert (Hlv : length values = T) by (unfold values; rewrite length_map; exact Hval).
  assert (Hne : forall (l : list arr), length l = T -> l <> [])
    by (intros l Hl Hc; rewrite Hc in Hl; simpl in Hl; lia).
  unfold collect.
  cbn [bind get lift ret].
  fold m; rewrite Hsample.
  rewrite (stack_ok _ Hv), (stack_ok _ Hlp), (stack_ok _ Hen).
  cbn [bind get lift ret].
  fold rewards masks values; rewrite Hlr.
  rewrite (bind_run _ _ _ _ _ Htd), (bind_run _ _ _ _ _ Hnew).
  rewrite (py_last_ok rewards azero (Hne _ Hlr)), (py_last_ok masks azero (Hne _ Hlm)),
    (py_last_ok values azero (Hne _ Hlv)).
  cbn [bind lift ret].
  rewrite Hlr, Hlm, Hlv.
  eexists; split; [reflexivity|].
  split; [|split].
  - rewrite length_app, length_map, length_seq; simpl; lia.
  - intros t w Ht.
    rewrite app_nth1 by (rewrite length_map, length_seq; lia).
    rewrite (nth_indep _ azero (td_at rewards masks values 0))
      by (rewrite length_map, length_seq; lia).
    rewrite map_nth, seq_nth by lia; simpl.
    unfold td_at, rewards, masks, values.
    rewrite nth_map_row, nth_map_mask, !nth_map_sum_last by lia.
    reflexivity.
  - intros w.
    rewrite app_nth2 by (rewrite length_map, length_seq; lia).
    rewrite length_map, length_seq, Nat.sub_diag; simpl.
    unfold rewards, masks, values.
    rewrite nth_map_row, nth_map_mask, !nth_map_sum_last by lia.
    reflexivity.
Qed.

Lemma aggregate_from_collect (s : St) c s1 :
  collect E s = (Ok c, s1) ->
  aggregate_experiences E s =
    (Ok (gae_advs (discount E * gae_lambda E) (c_T c) (c_deltas c),
         c_log_probs c, c_entropies c), set_memory empty_memory s1).
Proof. intros H; unfold aggregate_experiences, bind; rewrite H; reflexivity. Qed.

Lemma nth_map_seq (f : nat -> arr) n t :
  (t < n)%nat -> nth t (map f (seq 0 n)) azero = f t.
Proof.
  intros Ht; rewrite (nth_indep _ azero (f 0%nat)) by (rewrite length_map, length_seq; lia).
  rewrite map_nth, seq_nth by lia; reflexivity.
Qed.

Lemma gae_inner_sum d ds n : forall a p adv w,
  gae_inner d ds adv p (seq a n) w ==
  adv w + fold_right Qplus 0
    (map (fun t => nth t ds azero w * d ^ Z.of_nat (p + (t - a))) (seq a n)).
Proof.
  induction n as [|n IH]; intros a p adv w; simpl.
  - ring.
  - rewrite IH, Nat.sub_diag, Nat.add_0_r.
    assert (Hm : map (fun t => nth t ds azero w * d ^ Z.of_nat (S p + (t - S a))) (seq (S a) n)
               = map (fun t => nth t ds azero w * d ^ Z.of_nat (p + (t - a))) (seq (S a) n)).
    { apply map_ext_in; intros t Ht; apply in_seq in Ht.
      do 3 f_equal; lia. }
    rewrite Hm; ring.
Qed.

Lemma gae_advs_nested d T ds t_start w :
  (t_start < T)%nat -> nth t_start (gae_advs d T ds) azero w == nested_sum d T ds t_start w.
Proof.
  intros Ht; unfold gae_advs; rewrite nth_map_seq by exact Ht.
  rewrite gae_inner_sum; unfold nested_sum; cbn [Nat.add]; unfold azero; apply Qplus_0_l.
Qed.

Lemma Qpower_nat_succ d m : d ^ Z.of_nat (S m) == d * d ^ Z.of_nat m.
Proof.
  rewrite Nat2Z.inj_succ, <- Z.add_1_r, Qpower_plus' by lia.
  rewrite Qpower_1_r; ring.
Qed.

Lemma fold_sum_scale d (f : nat -> Q) l :
  fold_right Qplus 0 (map (fun i => d * f i) l) == d * fold_right Qplus 0 (map f l).
Proof. induction l as [|x l IH]; simpl; [ring|rewrite IH; ring]. Qed.

Lemma fold_sum_ext (f g : nat -> Q) l :
  (forall i, In i l -> f i == g i) ->
  fold_right Qplus 0 (map f l) == fold_right Qplus 0 (map g l).
Proof.
  induction l as [|x l IH]; simpl; intros H; [reflexivity|].
  rewrite (H x (or_introl eq_refl)), IH by (intros i Hi; apply H; right; exact Hi).
  reflexivity.
Qed.

Lemma nested_plain d ds k : forall t w,
  fold_right Qplus 0 (map (fun i => nth i ds azero w * d ^ Z.of_nat (i - t)) (seq t k))
  == plain_adv d ds t k w.
Proof.
  induction k as [|k IH]; intros t w; simpl; [reflexivity|].
  rewrite Nat.sub_diag; simpl Z.of_nat.
  rewrite (fold_sum_ext _ (fun i => d * (nth i ds azero w * d ^ Z.of_nat (i - S t)))).
  - rewrite fold_sum_scale, IH; unfold Qpower; simpl; ring.
  - intros i Hi; apply in_seq in Hi.
    replace (i - t)%nat with (S (i - S t)) by lia.
    rewrite Qpower_nat_succ; ring.
Qed.

Lemma masked_plain d masks ds k : forall t w,
  (forall i, (t <= i)%nat -> (S i < t + k)%nat -> nth i masks azero w == 1) ->
  masked_adv d masks ds t k w == plain_adv d ds t k w.
Proof.
  induction k as [|k IH]; intros t w Hm; simpl; [reflexivity|].
  rewrite IH by (intros i H1 H2; apply Hm; lia).
  destruct k as [|k].
  - simpl; unfold azero; ring.
  - rewrite (Hm t) by lia; ring.
Qed.

(** ** C1 *)

(** C1: whenever the rollout collection of [aggregate_experiences]
    succeeds, the returned advantages are [T] arrays over workers and
    [adv[t_start]] is, for every worker, the literal nested sum
    [sum_{t = t_start}^{T-1} delta[t] * (discount * gae_lambda)^(t - t_start)]
    of the residuals it computed; no mask enters the sum. *)
Theorem gae_is_nested_sum (s : St) c s1 :
  collect E s = (Ok c, s1) ->
  exists advs s2,
    aggregate_experiences E s = (Ok (advs, c_log_probs c, c_entropies c), s2) /\
    length advs = c_T c /\
    forall t_start w, (t_start < c_T c)%nat ->
      nth t_start advs azero w ==
      nested_sum (discount E * gae_lambda E) (c_T c) (c_deltas c) t_start w.
Proof.
  intros H.
  exists (gae_advs (discount E * gae_lambda E) (c_T c) (c_deltas c)),
    (set_memory empty_memory s1).
  split; [apply aggregate_from_collect; exact H|split].
  - unfold gae_advs; rewrite length_map, length_seq; reflexivity.
  - intros t_start w Ht; apply gae_advs_nested; exact Ht.
Qed.

(** ** C2 *)

(** C2: on a completed rollout ([T >= 1] rewards, at least
    [num_frames_per_proc] of them, as many terminal flags and cached values,
    cached log-probs and entropies present, [set_new_obs] called), the
    residuals that [aggregate_experiences] turns into advantages are, per
    worker, [delta[t] = reward[t] + value[t+1] * (1 - terminal[t]) - value[t]]
    for [t < T - 1], using the cached [value[t+1]], and
    [delta[T-1] = reward[T-1] + V_T * (1 - terminal[T-1]) - value[T-1]] where
    [V_T] is the value head of the network run on [get_newest_state()],
    the window of the stored observations ending in [new_obs]. *)
Theorem td_residuals_bootstrap (s : St) o T :
  length (mem_reward (memory s)) = T ->
  (num_frames_per_proc E <= T)%nat -> (0 < T)%nat ->
  length (mem_terminal (memory s)) = T -> length (mem_value (memory s)) = T ->
  mem_log_prob (memory s) <> [] -> mem_entropy (memory s) <> [] ->
  new_obs s = Some o ->
  exists ds,
    aggregate_experiences E s =
      (Ok (gae_advs (discount E * gae_lambda E) T ds,
           mem_log_prob (memory s), mem_entropy (memory s)),
       set_memory empty_memory s) /\
    length ds = T /\
    (forall t w, (S t < T)%nat ->
       nth t ds azero w =
         row (nth t (mem_reward (memory s)) []) w
         + sum_last (nth (S t) (mem_value (memory s)) (fun _ => [])) w
           * mask_row (nth t (mem_terminal (memory s)) []) w
         - sum_last (nth t (mem_value (memory s)) (fun _ => [])) w) /\
    (forall w,
       nth (T - 1) ds azero w =
         row (nth (T - 1) (mem_reward (memory s)) []) w
         + sum_last (snd (ac_model E (get_recent_state E (memory s) o))) w
           * mask_row (nth (T - 1) (mem_terminal (memory s)) []) w
         - sum_last (nth (T - 1) (mem_value (memory s)) (fun _ => [])) w).
Proof.
  intros HTr Hf HT Hterm Hval Hlp Hen Ho.
  destruct (collect_ok s o T HTr Hf HT Hterm Hval Hlp Hen Ho) as (ds & Hc & Hl & Hd & Hlast).
  exists ds; split; [|split; [exact Hl|split; [exact Hd|exact Hlast]]].
  rewrite (aggregate_from_collect _ _ _ Hc); reflexivity.
Qed.

(** ** C3 *)

(** C3 (amended): the advantages of [aggregate_experiences] equal the
    unmasked backward recurrence [adv[t] = delta[t] + discount * gae_lambda
    * adv[t+1]], [adv[T] = 0]; they equal the masked recurrence
    [adv[t] = delta[t] + discount * gae_lambda * mask[t] * adv[t+1]] (with
    the code's masks) when no terminal flag is set at a step [i] with
    [t <= i < T - 1]. *)
Theorem gae_backward_recurrence (s : St) c s1 :
  collect E s = (Ok c, s1) ->
  exists advs s2,
    aggregate_experiences E s = (Ok (advs, c_log_probs c, c_entropies c), s2) /\
    forall t w, (t < c_T c)%nat ->
      nth t advs azero w ==
        plain_recurrence (discount E * gae_lambda E) (c_T c) (c_deltas c) t w /\
      ((forall i, (t <= i)%nat -> (S i < c_T c)%nat ->
          nth i (map mask_row (mem_terminal (memory s))) azero w == 1) ->
       nth t advs azero w ==
         masked_recurrence (discount E * gae_lambda E) (c_T c)
           (map mask_row (mem_terminal (memory s))) (c_deltas c) t w).
Proof.
  intros H.
  exists (gae_advs (discount E * gae_lambda E) (c_T c) (c_deltas c)),
    (set_memory empty_memory s1).
  split; [apply aggregate_from_collect; exact H|].
  intros t w Ht.
  assert (Hp : nth t (gae_advs (discount E * gae_lambda E) (c_T c) (c_deltas c)) azero w ==
               plain_recurrence (discount E * gae_lambda E) (c_T c) (c_deltas c) t w).
  { rewrite gae_advs_nested by exact Ht; apply nested_plain. }
  split; [exact Hp|].
  intros Hm; rewrite Hp; unfold masked_recurrence, plain_recurrence.
  symmetry; apply masked_plain.
  intros i H1 H2; apply Hm; lia.
Qed.

(** ** C9 *)

Lemma Qpower_zero_succ d m : d == 0 -> d ^ Z.of_nat (S m) == 0.
Proof. intros Hd; rewrite Hd; apply Qpower_0; lia. Qed.

(** C9: with [gae_lambda = 0] every advantage equals its residual:
    [adv[t] = delta[t]] (the [t = t_start] term has factor [0^0 = 1], every
    later one [0^k = 0]). *)
Theorem gae_lambda_zero_single_step (s : St) c s1 :
  gae_lambda E == 0 ->
  collect E s = (Ok c, s1) ->
  exists advs s2,
    aggregate_experiences E s = (Ok (advs, c_log_probs c, c_entropies c), s2) /\
    forall t w, (t < c_T c)%nat -> nth t advs azero w == nth t (c_deltas c) azero w.
Proof.
  intros Hl H.
  exists (gae_advs (discount E * gae_lambda E) (c_T c) (c_deltas c)),
    (set_memory empty_memory s1).
  split; [apply aggregate_from_collect; exact H|].
  intros t w Ht.
  rewrite gae_advs_nested by exact Ht; unfold nested_sum.
  replace (c_T c - t)%nat with (S (c_T c - S t)) by lia.
  simpl; rewrite Nat.sub_diag; simpl Z.of_nat.
  rewrite (fold_sum_ext _ (fun _ => 0)).
  - assert (Hz : forall l : list nat, fold_right Qplus 0 (map (fun _ => 0) l) == 0)
      by (induction l as [|x l IH]; simpl; [reflexivity|rewrite IH; reflexivity]).
    rewrite Hz; unfold Qpower; simpl; ring.
  - intros i Hi; apply in_seq in Hi.
    replace (i - t)%nat with (S (i - S t)) by lia.
    rewrite Qpower_zero_succ; [ring|].
    rewrite Hl; ring.
Qed.

(** ** C8 *)

Lemma record_keeps_memory M0 action reward terminal :
  preserves (fun s : St => memory s = M0) (record E action reward terminal).
Proof. unfold record, record_worker; frame; exact Hs. Qed.

Lemma predict_run (s : St) obs training :
  predict E obs training s =
    let '(dist, value) := ac_model E (get_recent_state E (memory s) (maybe_process E obs)) in
    let action := dist_sample E dist in
    (Ok action,
     if training then
       set_memory (mem_store_value_log_prob (memory s) value
                     (dist_log_prob E dist action) (dist_entropy E dist)) s
     else s).
Proof.
  unfold predict, bind, get; simpl.
  destruct (ac_model E _) as [dist value]; destruct training; reflexivity.
Qed.

Lemma observe_memory (s : St) p obs action reward terminal info training :
  processor E = Some p ->
  memory (snd (observe E obs action reward terminal info training s)) =
    mem_append (memory s) (map p obs) action reward terminal training.
Proof.
  intros Hp; unfold observe, process_each; rewrite Hp.
  unfold bind at 1; simpl; unfold bind at 1; simpl.
  apply record_keeps_memory; reflexivity.
Qed.

(** C8: on a completed rollout (as in C2, with one cached log-prob and
    entropy per step), [aggregate_experiences] returns the [T] advantages
    and the cached log-probabilities and entropies, [T] arrays over workers
    each, and leaves the agent with the store reset to empty and nothing
    else changed; the next [predict]/[observe] cycle then fills the store
    from empty with exactly that step's transition and cached statistics. *)
Theorem aggregate_returns_and_resets (s : St) o T :
  length (mem_reward (memory s)) = T ->
  (num_frames_per_proc E <= T)%nat -> (0 < T)%nat ->
  length (mem_terminal (memory s)) = T -> length (mem_value (memory s)) = T ->
  length (mem_log_prob (memory s)) = T -> length (mem_entropy (memory s)) = T ->
  new_obs s = Some o ->
  exists advs,
    aggregate_experiences E s =
      (Ok (advs, mem_log_prob (memory s), mem_entropy (memory s)),
       set_memory empty_memory s) /\
    length advs = T /\
    memory (set_memory empty_memory s) = empty_memory /\
    (forall p obs next_obs reward terminal training,
       processor E = Some p ->
       memory (snd (rollout E training [(obs, next_obs, reward, terminal)]
                      (set_memory empty_memory s))) =
       let '(dist, value) := ac_model E (get_recent_state E empty_memory (map p obs)) in
       let action := dist_sample E dist in
       mem_append
         (if training then
            mem_store_value_log_prob empty_memory value
              (dist_log_prob E dist action) (dist_entropy E dist)
          else empty_memory)
         (map p next_obs) action reward terminal training).
Proof.
  intros HTr Hf HT Hterm Hval Hlp Hen Ho.
  assert (Hne : forall {A : Type} (l : list A), length l = T -> l <> [])
    by (intros A l Hl Hc; rewrite Hc in Hl; simpl in Hl; lia).
  destruct (collect_ok s o T HTr Hf HT Hterm Hval (Hne _ _ Hlp) (Hne _ _ Hen) Ho)
    as (ds & Hc & Hl & _ & _).
  exists (gae_advs (discount E * gae_lambda E) T ds).
  split; [rewrite (aggregate_from_collect _ _ _ Hc); reflexivity|].
  split; [unfold gae_advs; rewrite length_map, length_seq; reflexivity|].
  split; [reflexivity|].
  intros p obs next_obs reward terminal training Hp.
  simpl rollout; unfold bind at 1.
  rewrite predict_run; unfold maybe_process; rewrite Hp; simpl memory.
  destruct (ac_model E (get_recent_state E empty_memory (map p obs))) as [dist value].
  unfold bind.
  destruct (observe E next_obs (dist_sample E dist) reward terminal tt training _)
    as [r s2] eqn:Hobs.
  pose proof (observe_memory (if training then set_memory (mem_store_value_log_prob
     empty_memory value (dist_log_prob E dist (dist_sample E dist)) (dist_entropy E dist))
     (set_memory empty_memory s) else set_memory empty_memory s) p next_obs
     (dist_sample E dist) reward terminal tt training Hp) as Hm.
  rewrite Hobs in Hm; simpl in Hm.
  destruct r; destruct training; simpl; exact Hm.
Qed.

End Proofs.

(** * Further properties of [ACAgent] *)

Section Extras.

Variable E : Env.

Local Abbreviation St := (Agent (Obs E) (Act E)).

Lemma td_deltas_frame rewards masks values ts (P : St -> Prop) :
  preserves P (td_deltas E rewards masks values ts).
Proof.
  induction ts as [|t ts IH]; intros s Hs; cbn [td_deltas]; [exact Hs|].
  unfold bind, lift, ret, py_index.
  destruct (nth_error rewards t); [|exact Hs].
  destruct (nth_error values (S t)); [|exact Hs].
  destruct (nth_error masks t); [|exact Hs].
  destruct (nth_error values t); [|exact Hs].
  specialize (IH s Hs).
  destruct (td_deltas E rewards masks values ts s) as [[l|e] s1]; exact IH.
Qed.

Lemma collect_frame (s0 : St) : preserves (fun s => s = s0) (collect E).
Proof.
  intros s Hs; rewrite Hs; clear s Hs; unfold collect, bind, get, lift, ret.
  repeat match goal with
  | |- context [match ?r with Ok _ => _ | Err _ => _ end] =>
      lazymatch r with context [td_deltas] => fail | _ => destruct r; simpl end
  end.
  all: try reflexivity.
  all: match goal with
       | |- context [td_deltas E ?a ?b ?c ?d ?st] =>
           pose proof (td_deltas_frame a b c d (fun x => x = st) st eq_refl) as Ht;
           destruct (td_deltas E a b c d st) as [[?dl|?e] ?s1]; simpl in Ht; subst
       end.
  all: unfold get_newest_state, bind, get, ret, throw; simpl;
       try destruct (new_obs s0); reflexivity.
Qed.

(** [aggregate_experiences] changes nothing but the store: when it raises
    the agent is left as it was (the store is not reset), and when it
    returns the only change is the reset store. *)
Theorem aggregate_only_resets (s s' : St) r :
  aggregate_experiences E s = (r, s') ->
  match r with
  | Ok _ => s' = set_memory empty_memory s
  | Err _ => s' = s
  end.
Proof.
  intros H; unfold aggregate_experiences, bind in H.
  pose proof (collect_frame s s eq_refl) as Hf.
  destruct (collect E s) as [[c|e] s1]; simpl in Hf; subst s1.
  - injection H as <- <-; reflexivity.
  - injection H as <- <-; reflexivity.
Qed.

Lemma for_each_ext_in {S : Type} is (b1 b2 : nat -> M S unit) :
  (forall i, In i is -> forall s, b1 i s = b2 i s) ->
  forall s, for_each is b1 s = for_each is b2 s.
Proof.
  induction is as [|i is IH]; intros H s; simpl; [reflexivity|].
  unfold bind; rewrite H by (left; reflexivity).
  destruct (b2 i s) as [[u|e] s1]; [|reflexivity].
  apply IH; intros j Hj; apply H; right; exact Hj.
Qed.

(** [record] iterates over [range(len(action))]: entries of [reward] and
    [terminal] past the number of actions are never read. *)
Theorem record_ignores_extra_entries (s : St) action reward terminal reward' terminal' :
  length reward = length action -> length terminal = length action ->
  record E action (reward ++ reward') (terminal ++ terminal') s =
  record E action reward terminal s.
Proof.
  intros Hr Ht; unfold record, bind.
  rewrite (for_each_ext_in _ _ (record_worker E action reward terminal)); [reflexivity|].
  intros i Hi s1; apply in_seq in Hi.
  unfold record_worker, py_index.
  rewrite !nth_error_app1 by lia; reflexivity.
Qed.

(** [record_step] counts the [record] calls that returned. *)
Theorem record_step_counts_calls calls (s : St) :
  fst (run_records E calls s) = Ok tt ->
  record_step (snd (run_records E calls s)) = (record_step s + length calls)%nat.
Proof.
  revert s; induction calls as [|[[a r] t] calls IH]; intros s H; simpl in *.
  - lia.
  - unfold bind in *.
    destruct (record E a r t s) as [[[]|e] s1] eqn:Hrec; [|discriminate].
    rewrite IH by exact H.
    unfold record, bind in Hrec.
    pose proof (preserves_for_each (fun x : St => record_step x = record_step s)
                  (seq 0 (length a)) (record_worker E a r t)) as Hp.
    assert (Hw : forall i, preserves (fun x : St => record_step x = record_step s)
                                     (record_worker E a r t i))
      by (intros i; unfold record_worker; frame; exact Hs).
    specialize (Hp Hw s eq_refl).
    destruct (for_each (seq 0 (length a)) (record_worker E a r t) s) as [[[]|e] s2];
      [|discriminate].
    injection Hrec as <-; simpl in *; lia.
Qed.

Lemma preserves_write_app (P : St -> Prop) e :
  (forall s, P s -> P (set_writer_log (writer_log s ++ [e]) s)) -> preserves P (write E e).
Proof.
  intros HP s Hs; unfold write.
  destruct (sink_accepts E e); simpl; auto.
Qed.

(** Split a computation into its steps, keeping the appended event of
    each [write]. *)
Ltac frame_log :=
  repeat first
    [ apply preserves_bind; [|intro]
    | apply preserves_for_each; intro
    | apply preserves_if
    | apply preserves_write_app; intros ?s ?Hs
    | apply preserves_modify; intros ?s ?Hs
    | apply preserves_ret | apply preserves_get | apply preserves_lift
    | apply preserves_throw ].

Lemma for_each_short_reward action reward terminal n : forall a (s : St),
  (forall e, sink_accepts E e = true) ->
  (a <= length reward < a + n)%nat -> (a + n <= length action)%nat ->
  (a + n <= length terminal)%nat ->
  fst (for_each (seq a n) (record_worker E action reward terminal) s) = Err IndexError.
Proof.
  induction n as [|n IH]; intros a s Hs Hr Ha Ht; [lia|].
  cbn [seq for_each]; unfold bind at 1.
  destruct (Nat.eq_dec a (length reward)) as [->|Hne].
  - assert (Hw : record_worker E action reward terminal (length reward) s
                 = (Err IndexError, s)).
    { unfold record_worker, bind, lift, py_index.
      rewrite (proj2 (nth_error_None reward (length reward))) by lia.
      reflexivity. }
    rewrite Hw; reflexivity.
  - pose proof (record_worker_success E action reward terminal a s Hs
                  ltac:(lia) ltac:(lia) ltac:(lia)) as Hw.
    destruct (record_worker E action reward terminal a s) as [[[]|e] s1];
      simpl in Hw; [|discriminate].
    apply IH; auto; lia.
Qed.

(** [record] reads [reward[i]] for every [i < len(action)]: a reward list
    shorter than the action list raises IndexError (when the writer takes
    every summary, so no earlier worker raises first), and [record_step] is
    not advanced. *)
Theorem record_short_reward_raises (s : St) action reward terminal :
  (forall e, sink_accepts E e = true) ->
  (length reward < length action)%nat -> (length action <= length terminal)%nat ->
  fst (record E action reward terminal s) = Err IndexError /\
  record_step (snd (record E action reward terminal s)) = record_step s.
Proof.
  intros Hs Hr Ht; unfold record, bind.
  pose proof (for_each_short_reward action reward terminal (length action) 0 s Hs
                ltac:(lia) ltac:(lia) ltac:(lia)) as Hf.
  assert (Hp : preserves (fun x : St => record_step x = record_step s)
                 (for_each (seq 0 (length action)) (record_worker E action reward terminal)))
    by (unfold record_worker; frame; exact Hs0).
  specialize (Hp s eq_refl).
  destruct (for_each (seq 0 (length action)) (record_worker E action reward terminal) s)
    as [r s1]; simpl in Hf, Hp; subst r; split; [reflexivity|exact Hp].
Qed.

Definition ep_lists_aligned {Obs Act : Type} (s : Agent Obs Act) : Prop :=
  forall j, length (ep_rewards s j) = length (ep_actions s j).

Lemma record_worker_aligned action reward terminal i :
  (i < length action)%nat ->
  preserves ep_lists_aligned (record_worker E action reward terminal i).
Proof.
  intros Hi s Hs.
  destruct (nth_error action i) as [a|] eqn:Ha; [|apply nth_error_None in Ha; lia].
  unfold record_worker, bind, lift, modify, get, ret, py_index.
  destruct (nth_error reward i) as [r|]; [|exact Hs].
  rewrite Ha.
  destruct (nth_error terminal i) as [[|]|]; simpl;
    unfold write; repeat (destruct (sink_accepts E _); simpl);
    intros j; pose proof (Hs j) as Hj; simpl; unfold upd;
    destruct (Nat.eqb j i) eqn:Hji; try (apply Nat.eqb_eq in Hji; subst j);
    rewrite ?length_app; simpl; lia.
Qed.

Lemma record_aligned action reward terminal :
  preserves ep_lists_aligned (record E action reward terminal).
Proof.
  unfold record; apply preserves_bind; [|intros; apply preserves_modify; intros s Hs; exact Hs].
  assert (H : forall is, (forall i, In i is -> i < length action)%nat ->
            preserves ep_lists_aligned
              (for_each is (record_worker E action reward terminal))).
  { induction is as [|i is IH]; intros Hin; simpl; [apply preserves_ret|].
    apply preserves_bind; [apply record_worker_aligned, Hin; left; reflexivity|].
    intros _; apply IH; intros k Hk; apply Hin; right; exact Hk. }
  apply H; intros i Hi; apply in_seq in Hi; lia.
Qed.

(** Every [record] call appends to [ep_rewards[i]] and [ep_actions[i]]
    together and clears them together, even when it raises part-way:
    from a freshly constructed agent, the two episode lists of every worker
    always have the same length. *)
Theorem ep_lists_same_length calls j :
  let s := snd (run_records E calls init_agent) in
  length (ep_rewards s j) = length (ep_actions s j).
Proof.
  cbv zeta; revert j.
  change (ep_lists_aligned (snd (run_records E calls init_agent))).
  assert (H0 : ep_lists_aligned (@init_agent (Obs E) (Act E))) by (intros j; reflexivity).
  revert H0; generalize (@init_agent (Obs E) (Act E)) as s.
  induction calls as [|[[a r] t] calls IH]; intros s H0; simpl; [exact H0|].
  unfold bind.
  pose proof (record_aligned a r t s H0) as H1.
  destruct (record E a r t s) as [[u|e] s1]; simpl in *; [apply IH|]; exact H1.
Qed.

(** [record] never decreases an episode counter and never removes or
    rewrites a summary it has written: across any sequence of [record]
    calls, raising or not, every [episode_steps[i]] only grows and the old
    writer log is a prefix of the new one. *)
Theorem record_history_grows calls (s : St) :
  let s' := snd (run_records E calls s) in
  (forall j, episode_steps s j <= episode_steps s' j)%nat /\
  exists l, writer_log s' = writer_log s ++ l.
Proof.
  cbv zeta.
  set (P := fun x : St => (forall j, episode_steps s j <= episode_steps x j)%nat /\
                          exists l, writer_log x = writer_log s ++ l).
  change (P (snd (run_records E calls s))).
  assert (Hrec : forall a r t, preserves P (record E a r t)).
  { intros a r t; unfold record, record_worker; frame_log; subst P; simpl in *;
      destruct Hs as [Hk [l Hl]]; split; auto.
    all: first
      [ exists l; exact Hl
      | eexists; rewrite Hl, <- app_assoc; reflexivity
      | intros j; specialize (Hk j); unfold upd; destruct (Nat.eqb j i) eqn:Hji;
        [apply Nat.eqb_eq in Hji; subst j; lia | exact Hk] ]. }
  assert (H0 : P s) by (split; [intros j; lia | exists []; rewrite app_nil_r; reflexivity]).
  clearbody P; revert H0; generalize s as x0.
  induction calls as [|[[a r] t] calls IH]; intros x H0; simpl; [exact H0|].
  unfold bind.
  pose proof (Hrec a r t x H0) as H1.
  destruct (record E a r t x) as [[u|e] s1]; simpl in *; [apply IH|]; exact H1.
Qed.

(** [observe] appends the transition to the store before it calls
    [record]: with a processor the store holds the processed transition
    afterwards whatever [record] does, also when it raises, and the
    bootstrap observation is never touched. *)
Theorem observe_stores_before_record (s : St) p obs action reward terminal info training :
  processor E = Some p ->
  memory (snd (observe E obs action reward terminal info training s)) =
    mem_append (memory s) (map p obs) action reward terminal training /\
  new_obs (snd (observe E obs action reward terminal info training s)) = new_obs s.
Proof.
  intros Hp; split; [apply observe_memory; exact Hp|].
  assert (H : preserves (fun x : St => new_obs x = new_obs s)
                (observe E obs action reward terminal info training)).
  { unfold observe, process_each, record, record_worker; rewrite Hp; frame; exact Hs. }
  apply H; reflexivity.
Qed.

(** [aggregate_experiences] needs the bootstrap observation: on an
    otherwise complete rollout, with [set_new_obs] never called it raises
    AttributeError from [get_newest_state], and the store is not reset. *)
Theorem aggregate_without_new_obs_raises (s : St) T :
  length (mem_reward (memory s)) = T ->
  (num_frames_per_proc E <= T)%nat -> (0 < T)%nat ->
  length (mem_terminal (memory s)) = T -> length (mem_value (memory s)) = T ->
  mem_log_prob (memory s) <> [] -> mem_entropy (memory s) <> [] ->
  new_obs s = None ->
  aggregate_experiences E s = (Err AttributeError, s).
Proof.
  intros HTr Hf HT Hterm Hval Hlp Hen Ho.
  set (m := memory s) in *.
  set (rewards := map row (mem_reward m)).
  set (masks := map mask_row (mem_terminal m)).
  set (values := map sum_last (mem_value m)).
  assert (Hsample : mem_sample E m = Ok m).
  { unfold mem_sample; destruct (Nat.ltb_spec (length (mem_reward m)) (num_frames_per_proc E));
      [lia|reflexivity]. }
  assert (Hv : mem_value m <> []) by (intros Hc; rewrite Hc in Hval; simpl in Hval; lia).
  assert (Htd : td_deltas E rewards masks values (seq 0 (T - 1)) s =
                (Ok (map (td_at rewards masks values) (seq 0 (T - 1))), s)).
  { apply td_deltas_ok; intros t Ht; apply in_seq in Ht.
    unfold rewards, masks, values; rewrite !length_map; lia. }
  assert (Hlr : length rewards = T) by (unfold rewards; rewrite length_map; exact HTr).
  assert (Hcol : collect E s = (Err AttributeError, s)).
  { unfold collect.
    cbn [bind get lift ret].
    fold m; rewrite Hsample.
    rewrite (stack_ok _ Hv), (stack_ok _ Hlp), (stack_ok _ Hen).
    cbn [bind get lift ret].
    fold rewards masks values; rewrite Hlr.
    unfold bind at 1; rewrite Htd.
    unfold get_newest_state, bind, get; rewrite Ho; reflexivity. }
  unfold aggregate_experiences, bind; rewrite Hcol; reflexivity.
Qed.

(** The last advantage has no later residual to discount: whatever
    [gae_lambda] is, [advantages[T-1]] is the one-step bootstrapped
    residual [r[T-1] + V(new_obs) * mask[T-1] - v[T-1]]. *)
Theorem last_advantage_one_step (s : St) o T w :
  length (mem_reward (memory s)) = T ->
  (num_frames_per_proc E <= T)%nat -> (0 < T)%nat ->
  length (mem_terminal (memory s)) = T -> length (mem_value (memory s)) = T ->
  mem_log_prob (memory s) <> [] -> mem_entropy (memory s) <> [] ->
  new_obs s = Some o ->
  exists advs lp en,
    fst (aggregate_experiences E s) = Ok (advs, lp, en) /\
    nth (T - 1) advs azero w ==
      row (nth (T - 1) (mem_reward (memory s)) []) w
      + sum_last (snd (ac_model E (get_recent_state E (memory s) o))) w
        * mask_row (nth (T - 1) (mem_terminal (memory s)) []) w
      - sum_last (nth (T - 1) (mem_value (memory s)) (fun _ => [])) w.
Proof.
  intros HTr Hf HT Hterm Hval Hlp Hen Ho.
  destruct (collect_ok E s o T HTr Hf HT Hterm Hval Hlp Hen Ho)
    as (ds & Hc & Hlen & _ & Hlast).
  rewrite (aggregate_from_collect E _ _ _ Hc); simpl.
  do 3 eexists; split; [reflexivity|].
  rewrite gae_advs_nested by lia.
  unfold nested_sum.
  replace (T - (T - 1))%nat with 1%nat by lia.
  simpl; rewrite Nat.sub_diag, Hlast; simpl.
  unfold Qpower; simpl; ring.
Qed.

(** A worker whose last stored step is terminal does not bootstrap: its
    advantages are the same whatever bootstrap observation [set_new_obs]
    stored. *)
Theorem terminal_last_ignores_bootstrap (s : St) o o' T w :
  length (mem_reward (memory s)) = T ->
  (num_frames_per_proc E <= T)%nat -> (0 < T)%nat ->
  length (mem_terminal (memory s)) = T -> length (mem_value (memory s)) = T ->
  mem_log_prob (memory s) <> [] -> mem_entropy (memory s) <> [] ->
  new_obs s = Some o ->
  nth w (nth (T - 1) (mem_terminal (memory s)) []) false = true ->
  exists advs advs' lp en,
    fst (aggregate_experiences E s) = Ok (advs, lp, en) /\
    fst (aggregate_experiences E (set_new_obs_field (Some o') s)) = Ok (advs', lp, en) /\
    forall t, (t < T)%nat -> nth t advs azero w == nth t advs' azero w.
Proof.
  intros HTr Hf HT Hterm Hval Hlp Hen Ho Hw.
  destruct (collect_ok E s o T HTr Hf HT Hterm Hval Hlp Hen Ho)
    as (ds & Hc & Hlen & Hmid & Hlast).
  destruct (collect_ok E (set_new_obs_field (Some o') s) o' T HTr Hf HT Hterm Hval Hlp Hen
              eq_refl) as (ds' & Hc' & Hlen' & Hmid' & Hlast').
  rewrite (aggregate_from_collect E _ _ _ Hc), (aggregate_from_collect E _ _ _ Hc'); simpl.
  do 4 eexists; split; [reflexivity|split; [reflexivity|]].
  assert (Hds : forall t, (t < T)%nat -> nth t ds azero w == nth t ds' azero w).
  { intros t Ht.
    destruct (Nat.eq_dec t (T - 1)) as [->|Hne].
    - rewrite Hlast, Hlast'; simpl.
      unfold mask_row; rewrite Hw; ring.
    - rewrite Hmid, Hmid' by lia; reflexivity. }
  intros t Ht.
  rewrite !gae_advs_nested by exact Ht.
  unfold nested_sum; apply fold_sum_ext.
  intros i Hi; apply in_seq in Hi.
  rewrite (Hds i) by lia; reflexivity.
Qed.

Lemma tl_skipn {A : Type} k (l : list A) : tl (skipn k l) = skipn (S k) l.
Proof.
  revert l; induction k as [|k IH]; intros [|x l]; simpl; try reflexivity.
  apply IH.
Qed.

(** A [deque(maxlen=n)] filled by [append] from empty, as [record] fills
    [reward_record[i]], holds exactly the last [n] rewards appended, in
    arrival order. *)
Theorem reward_window_last_rewards n (xs : list Q) :
  fold_left (dq_append n) xs [] = skipn (length xs - n) xs.
Proof.
  induction xs as [|x xs IH] using rev_ind; [reflexivity|].
  rewrite fold_left_app, IH; cbn [fold_left]; unfold dq_append.
  assert (Hk : skipn (length xs - n) xs ++ [x] = skipn (length xs - n) (xs ++ [x])).
  { rewrite skipn_app; replace (length xs - n - length xs)%nat with 0%nat by lia;
      reflexivity. }
  rewrite Hk, length_skipn, !length_app; simpl.
  destruct (Nat.ltb_spec n (length xs + 1 - (length xs - n))) as [Hl|Hl].
  - rewrite tl_skipn; f_equal; lia.
  - f_equal; lia.
Qed.

Lemma for_each_no_terminal action reward terminal is : forall (s : St),
  (forall i, In i is ->
     (i < length action)%nat /\ (i < length reward)%nat /\ nth_error terminal i = Some false) ->
  let '(result, s') := for_each is (record_worker E action reward terminal) s in
  result = Ok tt /\ writer_log s' = writer_log s /\ episode_steps s' = episode_steps s.
Proof.
  induction is as [|i is IH]; intros s Hin; simpl; [repeat split|].
  destruct (Hin i (or_introl eq_refl)) as (Ha & Hr & Ht).
  destruct (nth_error action i) as [a|] eqn:Ea; [|apply nth_error_None in Ea; lia].
  destruct (nth_error reward i) as [r|] eqn:Er; [|apply nth_error_None in Er; lia].
  assert (Hw : exists s1, record_worker E action reward terminal i s = (Ok tt, s1) /\
                 writer_log s1 = writer_log s /\ episode_steps s1 = episode_steps s).
  { eexists; unfold record_worker, bind, lift, modify, get, ret, py_index.
    rewrite Er, Ea, Ht; split; [reflexivity|split; reflexivity]. }
  destruct Hw as (s1 & Hw & Hl & Hk).
  unfold bind; rewrite Hw.
  specialize (IH s1 (fun j Hj => Hin j (or_intror Hj))).
  destruct (for_each is (record_worker E action reward terminal) s1) as [res s2].
  destruct IH as (-> & Hl2 & Hk2); split; [reflexivity|].
  rewrite Hl2, Hk2; split; assumption.
Qed.

(** [record] only calls the writer for a terminal worker: when no worker
    of the call is terminal it returns, whatever the writer does, with
    the log and every episode counter unchanged. *)
Theorem record_without_terminal_never_writes (s : St) action reward terminal :
  length reward = length action -> length terminal = length action ->
  ~ In true terminal ->
  let '(result, s') := record E action reward terminal s in
  result = Ok tt /\ writer_log s' = writer_log s /\
  episode_steps s' = episode_steps s /\ record_step s' = S (record_step s).
Proof.
  intros Hr Ht Hnt; unfold record, bind.
  pose proof (for_each_no_terminal action reward terminal (seq 0 (length action)) s) as H.
  destruct (for_each (seq 0 (length action)) (record_worker E action reward terminal) s)
    as [res s1] eqn:Hf.
  destruct H as (-> & Hl & Hk).
  - intros i Hi; apply in_seq in Hi.
    split; [lia|split; [lia|]].
    destruct (nth_error terminal i) as [[|]|] eqn:E1.
    + apply nth_error_In in E1; contradiction.
    + reflexivity.
    + apply nth_error_None in E1; lia.
  - simpl; split; [reflexivity|split; [exact Hl|split; [exact Hk|]]].
    assert (Hp : preserves (fun x : St => record_step x = record_step s)
                   (for_each (seq 0 (length action)) (record_worker E action reward terminal)))
      by (unfold record_worker; frame; exact Hs).
    specialize (Hp s eq_refl); rewrite Hf in Hp; simpl in Hp; rewrite Hp; reflexivity.
Qed.

(** [aggregate_experiences] empties the store it reads: calling it again
    without a new rollout raises RuntimeError and leaves the agent as it
    is. *)
Theorem aggregate_twice_raises (s s1 : St) r :
  aggregate_experiences E s = (Ok r, s1) ->
  aggregate_experiences E s1 = (Err RuntimeError, s1).
Proof.
  intros H; unfold aggregate_experiences, bind in H.
  pose proof (collect_frame s s eq_refl) as Hf.
  destruct (collect E s) as [[c|e] s2]; simpl in Hf; subst s2; [|discriminate].
  injection H as _ <-.
  unfold aggregate_experiences, collect, bind, get, lift, mem_sample; simpl.
  destruct (num_frames_per_proc E); reflexivity.
Qed.

End Extras.

(** * Evaluations on concrete inputs *)

Definition env_fail : Env := env_ex (Some (fun x => x)) (fun _ => false) 2 0.
Definition env_ok : Env := env_ex (Some (fun x => x)) (fun _ => true) 2 0.
Definition env_none : Env := env_ex None (fun _ => true) 2 0.

(** A writer that raises on worker 1's action histogram only. *)
Definition env_hist : Env :=
  env_ex (Some (fun x => x))
    (fun e => match e with EvActionHist 1 _ _ => false | _ => true end) 2 0.

(** The spec's scenario: its rollout collection succeeds and the
    advantages it returns are the nested sums. *)
Lemma gae_is_nested_sum_witness :
  exists c s1, collect (env_scenario (95 # 100)) scenario_agent = (Ok c, s1) /\
  exists advs s2,
    aggregate_experiences (env_scenario (95 # 100)) scenario_agent =
      (Ok (advs, c_log_probs c, c_entropies c), s2).
Proof.
  destruct (collect (env_scenario (95 # 100)) scenario_agent) as [[c|e] s1] eqn:Hc;
    [|vm_compute in Hc; discriminate Hc].
  exists c, s1; split; [reflexivity|].
  destruct (gae_is_nested_sum (env_scenario (95 # 100)) scenario_agent c s1 Hc)
    as (advs & s2 & H & _).
  exists advs, s2; exact H.
Defined.

Lemma td_residuals_bootstrap_witness :
  exists ds,
    aggregate_experiences (env_scenario (95 # 100)) scenario_agent =
      (Ok (gae_advs ((99 # 100) * (95 # 100)) 3 ds,
           mem_log_prob (memory scenario_agent), mem_entropy (memory scenario_agent)),
       set_memory empty_memory scenario_agent).
Proof.
  destruct (td_residuals_bootstrap (env_scenario (95 # 100)) scenario_agent
              [8 # 10; 0] 3 eq_refl (le_n 3) ltac:(lia) eq_refl eq_refl
              ltac:(discriminate) ltac:(discriminate) eq_refl)
    as (ds & H & _).
  exists ds; exact H.
Defined.

Lemma gae_backward_recurrence_witness :
  exists c s1, collect env_boundary boundary_agent = (Ok c, s1) /\
  exists advs s2,
    aggregate_experiences env_boundary boundary_agent =
      (Ok (advs, c_log_probs c, c_entropies c), s2).
Proof.
  destruct (collect env_boundary boundary_agent) as [[c|e] s1] eqn:Hc;
    [|vm_compute in Hc; discriminate Hc].
  exists c, s1; split; [reflexivity|].
  destruct (gae_backward_recurrence env_boundary boundary_agent c s1 Hc)
    as (advs & s2 & H & _).
  exists advs, s2; exact H.
Defined.

(** C3 counterexample: one worker, [T = 2], terminal at [t = 0],
    residuals [0] and [1].  The code's [adv[0]] is [0.99 * 0.95 * 1], the
    masked recurrence gives [0 + 0.9405 * 0 * 1 = 0]. *)
Lemma gae_masked_recurrence_counterexample :
  match collect env_boundary boundary_agent,
        aggregate_experiences env_boundary boundary_agent with
  | (Ok c, _), (Ok (advs, _, _), _) =>
      ~ (nth 0 advs azero 0%nat ==
         masked_recurrence (discount env_boundary * gae_lambda env_boundary) (c_T c)
           (map mask_row (mem_terminal (memory boundary_agent))) (c_deltas c) 0 0%nat)
  | _, _ => False
  end.
Proof. vm_compute; intros H; discriminate H. Qed.

(** The writer takes worker 0's summary and worker 1's reward sum, then
    raises on worker 1's action histogram. *)
Lemma record_sink_error_propagates_witness :
  fst (record env_hist [0%nat; 0%nat] [1; 2] [true; true] init_agent) = Err SinkError.
Proof.
  pose proof (record_sink_error_propagates env_hist init_agent [0%nat; 0%nat] [1; 2]
                [true; true] 1 0%nat 2 eq_refl eq_refl eq_refl eq_refl eq_refl
                ltac:(intros e He; simpl in He;
                      destruct He as [<-|[<-|[<-|[]]]]; reflexivity)
                ltac:(exists (EvActionHist 1 [0%nat] 0%nat); split;
                      [simpl; right; left; reflexivity|reflexivity])) as [H _].
  destruct (record env_hist [0%nat; 0%nat] [1; 2] [true; true] init_agent) as [r s'].
  destruct H as [H _]; exact H.
Defined.

(** C4 counterexample: the sink raises while worker 1's episode summary is
    written; [record] raises, worker 1's episode index stays [0] and its
    episode lists keep the episode. *)
Lemma record_sink_error_counterexample :
  let '(r, s') := record env_fail [0%nat; 0%nat] [1; 2] [false; true] init_agent in
  r = Err SinkError /\ episode_steps s' 1 = 0%nat /\ ep_rewards s' 1 = [2] /\
  record_step s' = 0%nat.
Proof. vm_compute; repeat split. Qed.

Lemma observe_without_processor_raises_witness :
  observe env_none [1 : Q] [0%nat] [1] [false] tt true init_agent =
    (Err AttributeError, init_agent).
Proof.
  exact (proj1 (observe_without_processor_raises env_none init_agent (1 : Q) []
                  [0%nat] [1] [false] tt true eq_refl)).
Defined.

Lemma record_episode_bookkeeping_witness :
  fst (record env_ok [0%nat; 0%nat] [1; 2] [false; true] init_agent) = Ok tt.
Proof.
  pose proof (record_episode_bookkeeping env_ok init_agent [0%nat; 0%nat] [1; 2]
                [false; true] (fun _ => eq_refl) eq_refl eq_refl) as H.
  destruct (record env_ok [0%nat; 0%nat] [1; 2] [false; true] init_agent) as [r s'].
  destruct H as [H _]; exact H.
Defined.

Lemma reward_window_fifo_witness :
  dq_append (smooth_length env_ok) [1; 2] 3 = [2; 3].
Proof.
  exact (proj2 (proj2 (proj2 (reward_window_fifo env_ok))) [1; 2] 3 eq_refl ltac:(simpl; lia)).
Defined.

Lemma aggregate_returns_and_resets_witness :
  exists advs,
    aggregate_experiences (env_scenario (95 # 100)) scenario_agent =
      (Ok (advs, mem_log_prob (memory scenario_agent), mem_entropy (memory scenario_agent)),
       set_memory empty_memory scenario_agent).
Proof.
  destruct (aggregate_returns_and_resets (env_scenario (95 # 100)) scenario_agent
              [8 # 10; 0] 3 eq_refl (le_n 3) ltac:(lia) eq_refl eq_refl eq_refl eq_refl
              eq_refl)
    as (advs & H & _).
  exists advs; exact H.
Defined.

Lemma gae_lambda_zero_single_step_witness :
  exists c s1, collect (env_scenario 0) scenario_agent = (Ok c, s1) /\
  exists advs s2,
    aggregate_experiences (env_scenario 0) scenario_agent =
      (Ok (advs, c_log_probs c, c_entropies c), s2).
Proof.
  destruct (collect (env_scenario 0) scenario_agent) as [[c|e] s1] eqn:Hc;
    [|vm_compute in Hc; discriminate Hc].
  exists c, s1; split; [reflexivity|].
  destruct (gae_lambda_zero_single_step (env_scenario 0) scenario_agent c s1
              (Qeq_refl 0) Hc)
    as (advs & s2 & H & _).
  exists advs, s2; exact H.
Defined.

(** * Further properties on concrete inputs *)

Lemma aggregate_only_resets_witness :
  snd (aggregate_experiences (env_scenario (95 # 100)) scenario_agent) =
    set_memory empty_memory scenario_agent.
Proof.
  destruct (aggregate_experiences (env_scenario (95 # 100)) scenario_agent)
    as [r s'] eqn:H; simpl.
  pose proof (aggregate_only_resets (env_scenario (95 # 100)) scenario_agent s' r H) as Hr.
  destruct r as [v|e]; [exact Hr|vm_compute in H; discriminate H].
Defined.

Lemma record_ignores_extra_entries_witness :
  record env_ok [0%nat; 0%nat] ([1; 2] ++ [5]) ([false; true] ++ [true]) init_agent =
  record env_ok [0%nat; 0%nat] [1; 2] [false; true] init_agent.
Proof.
  exact (record_ignores_extra_entries env_ok init_agent [0%nat; 0%nat] [1; 2] [false; true]
           [5] [true] eq_refl eq_refl).
Defined.

Lemma record_step_counts_calls_witness :
  record_step (snd (run_records env_ok
    [([0%nat], [1], [false]); ([0%nat], [2], [true])] init_agent)) = 2%nat.
Proof.
  exact (record_step_counts_calls env_ok [([0%nat], [1], [false]); ([0%nat], [2], [true])]
           init_agent ltac:(vm_compute; reflexivity)).
Defined.

Lemma record_short_reward_raises_witness :
  fst (record env_ok [0%nat; 0%nat] [1] [false; false] init_agent) = Err IndexError /\
  record_step (snd (record env_ok [0%nat; 0%nat] [1] [false; false] init_agent)) =
    record_step (@init_agent Q nat).
Proof.
  exact (record_short_reward_raises env_ok init_agent [0%nat; 0%nat] [1] [false; false]
           (fun _ => eq_refl) ltac:(simpl; lia) ltac:(simpl; lia)).
Defined.

(** The writer rejects the terminal worker's summary: [observe] raises, and
    the transition is in the store. *)
Lemma observe_stores_before_record_witness :
  fst (observe env_fail [3] [0%nat] [1] [true] tt true init_agent) = Err SinkError /\
  memory (snd (observe env_fail [3] [0%nat] [1] [true] tt true init_agent)) =
    mem_append (memory (@init_agent Q nat)) (map (fun x : Q => x) [3]) [0%nat] [1] [true] true /\
  new_obs (snd (observe env_fail [3] [0%nat] [1] [true] tt true init_agent)) =
    new_obs (@init_agent Q nat).
Proof.
  split; [vm_compute; reflexivity|].
  exact (observe_stores_before_record env_fail init_agent (fun x : Q => x) [3] [0%nat] [1]
           [true] tt true eq_refl).
Defined.

Lemma aggregate_without_new_obs_raises_witness :
  aggregate_experiences (env_scenario (95 # 100)) (set_memory scenario_memory init_agent) =
    (Err AttributeError, set_memory scenario_memory init_agent).
Proof.
  exact (aggregate_without_new_obs_raises (env_scenario (95 # 100))
           (set_memory scenario_memory init_agent) 3 eq_refl (le_n 3) ltac:(lia)
           eq_refl eq_refl ltac:(discriminate) ltac:(discriminate) eq_refl).
Defined.

(** Worker 0 of the scenario: [1 + 0.8 * 1 - 0.7]. *)
Lemma last_advantage_one_step_witness :
  exists advs lp en,
    fst (aggregate_experiences (env_scenario (95 # 100)) scenario_agent) = Ok (advs, lp, en) /\
    nth 2 advs azero 0%nat == 11 # 10.
Proof.
  destruct (last_advantage_one_step (env_scenario (95 # 100)) scenario_agent [8 # 10; 0] 3
              0%nat eq_refl (le_n 3) ltac:(lia) eq_refl eq_refl ltac:(discriminate)
              ltac:(discriminate) eq_refl) as (advs & lp & en & H & Hq).
  exists advs, lp, en; split; [exact H|].
  rewrite Hq; vm_compute; reflexivity.
Defined.

(** Worker 1 of the scenario is terminal at its last step. *)
Lemma terminal_last_ignores_bootstrap_witness :
  exists advs advs' lp en,
    fst (aggregate_experiences (env_scenario (95 # 100)) scenario_agent) = Ok (advs, lp, en) /\
    fst (aggregate_experiences (env_scenario (95 # 100))
           (set_new_obs_field (Some [8 # 10; 3]) scenario_agent)) = Ok (advs', lp, en).
Proof.
  destruct (terminal_last_ignores_bootstrap (env_scenario (95 # 100)) scenario_agent
              [8 # 10; 0] [8 # 10; 3] 3 1%nat eq_refl (le_n 3) ltac:(lia) eq_refl eq_refl
              ltac:(discriminate) ltac:(discriminate) eq_refl eq_refl)
    as (advs & advs' & lp & en & H & H' & _).
  exists advs, advs', lp, en; split; [exact H|exact H'].
Defined.

(** The writer rejects everything; no worker is terminal. *)
Lemma record_without_terminal_never_writes_witness :
  fst (record env_fail [0%nat; 0%nat] [1; 2] [false; false] init_agent) = Ok tt.
Proof.
  pose proof (record_without_terminal_never_writes env_fail init_agent [0%nat; 0%nat] [1; 2]
                [false; false] eq_refl eq_refl ltac:(simpl; intuition discriminate)) as H.
  destruct (record env_fail [0%nat; 0%nat] [1; 2] [false; false] init_agent) as [r s'].
  destruct H as [H _]; exact H.
Defined.

Lemma aggregate_twice_raises_witness :
  exists s1,
    snd (aggregate_experiences (env_scenario (95 # 100)) scenario_agent) = s1 /\
    aggregate_experiences (env_scenario (95 # 100)) s1 = (Err RuntimeError, s1).
Proof.
  destruct (aggregate_experiences (env_scenario (95 # 100)) scenario_agent)
    as [[v|e] s1] eqn:H; [|vm_compute in H; discriminate H].
  exists s1; split; [reflexivity|].
  exact (aggregate_twice_raises (env_scenario (95 # 100)) scenario_agent s1 v H).
Defined.
